(** * A shallow embedding of the PDF viewer and its chat panel

    The repository is a React front end: [src/components/PDFViewer.tsx]
    (text search with highlighting, zoom) and [src/App.tsx] (the chat panel
    with citation markers), the latter in two versions.  Each handler is
    embedded as a pure function over the part of the browser state it reads
    and writes:

    - the DOM below the viewer's container: a class list per element and,
      per rendered page, the text nodes of its text layer in document order;
    - calls of [scrollIntoView] and of [window.alert], recorded in order;
    - React state ([scale], [messages], [inputMessage], [currentPage]) passed
      in and returned explicitly; pending [setTimeout] callbacks as data.

    JavaScript strings are Rocq strings, compared character by character.
    The two string methods whose result depends on the Unicode tables,
    [toLowerCase] and [trim], are taken as the engine provides them: the
    development is parametric in them and uses two of their properties
    only.  The numbers the code computes with or compares are IEEE 754
    binary64 values ([PrimFloat]): the zoom scale, the citation ids and
    what [parseInt] returns.  Page hints and clock readings, which the
    code only stores and prints, are integers. *)

From Stdlib Require Import ZArith QArith Qminmax Floats Lia Lqa String Ascii List Bool.
From stdpp Require Import base option list gmap strings pretty.

Set Warnings "-inexact-float".
Local Open Scope string_scope.
#[local] Arguments String.append !_ _ / : simpl nomatch.

(** ** JavaScript strings and numbers *)

Module JS.

(** What the code calls and the engine implements from the Unicode
    tables.  [s.toLowerCase()] folds every cased letter, and not always
    letter by letter; [s.trim()] strips the white space and the line
    terminators of ECMAScript from both ends.  Of the first it is used
    that it maps the empty string, and no other string, to the empty
    string; of the second, that it leaves the empty string empty. *)
Class Natives := {
  toLowerCase : string → string;
  trim : string → string;
  toLowerCase_is_empty : ∀ s, toLowerCase s = "" ↔ s = "";
  trim_of_empty : trim "" = ""
}.

(** [t.startsWith(s)] *)
Fixpoint startsWith (t s : string) {struct s} : bool :=
  match s, t with
  | EmptyString, _ => true
  | String _ _, EmptyString => false
  | String a s', String b t' => Ascii.eqb a b && startsWith t' s'
  end.

(** [t.includes(s)]: [s] occurs in [t] at some position. *)
Fixpoint includes (t s : string) {struct t} : bool :=
  startsWith t s ||
  match t with
  | EmptyString => false
  | String _ t' => includes t' s
  end.

(** Truthiness of a string value: only the empty string is falsy. *)
Definition truthy (s : string) : bool :=
  match s with
  | EmptyString => false
  | String _ _ => true
  end.

(** [c >= '0' && c <= '9'], the class [\d] of a regular expression
    without the unicode flag. *)
Definition isDigit (c : ascii) : bool :=
  let n := N_of_ascii c in ((48 <=? n) && (n <=? 57))%N.

(** The longest run of digits at the start of [s], and what follows it. *)
Fixpoint spanDigits (s : string) : string * string :=
  match s with
  | EmptyString => (EmptyString, EmptyString)
  | String c s' =>
      if isDigit c
      then let '(ds, rest) := spanDigits s' in (String c ds, rest)
      else (EmptyString, s)
  end.

(** The integer a run of decimal digits spells, most significant digit
    first. *)
Fixpoint digitsValue (acc : Z) (ds : string) : Z :=
  match ds with
  | EmptyString => acc
  | String c ds' => digitsValue (10 * acc + (Z.of_N (N_of_ascii c) - 48)) ds'
  end.

(** The Number value of an integer: the binary64 value nearest to it,
    the one with even mantissa on a tie, infinity beyond the range. *)
Definition numberOf (n : Z) : float :=
  SF2Prim (binary_normalize prec emax n 0 false).

(** [parseInt(s, 10)] for a string without sign or leading white space:
    the Number value of the integer its leading digits spell, NaN when it
    starts with no digit.  (ECMAScript lets an engine read the digits
    after the twentieth as zeros; all digits are read here, which is one
    of the results it permits.) *)
Definition parseInt (s : string) : float :=
  match spanDigits s with
  | (EmptyString, _) => nan
  | (ds, _) => numberOf (digitsValue 0 ds)
  end.

End JS.

(** ** The string methods on ASCII text *)

(** On strings of ASCII characters [toLowerCase] maps the letters [A] to
    [Z] to [a] to [z], character by character, and [trim] strips TAB, LF,
    VT, FF, CR and SPACE.  The examples are computed with these. *)
Module AsciiText.

(** [c >= 'A' && c <= 'Z' ? c + 32 : c] *)
Definition toLowerCaseChar (c : ascii) : ascii :=
  let n := N_of_ascii c in
  if ((65 <=? n) && (n <=? 90))%N then ascii_of_N (n + 32) else c.

Fixpoint toLowerCase (s : string) : string :=
  match s with
  | EmptyString => EmptyString
  | String c s' => String (toLowerCaseChar c) (toLowerCase s')
  end.

Definition isWhiteSpace (c : ascii) : bool :=
  let n := N_of_ascii c in
  (((9 <=? n) && (n <=? 13)) || (n =? 32))%N.

Fixpoint trimStart (s : string) : string :=
  match s with
  | EmptyString => EmptyString
  | String c s' => if isWhiteSpace c then trimStart s' else s
  end.

Fixpoint trimEnd (s : string) : string :=
  match s with
  | EmptyString => EmptyString
  | String c s' =>
      match trimEnd s' with
      | EmptyString => if isWhiteSpace c then EmptyString else String c EmptyString
      | r => String c r
      end
  end.

Definition trim (s : string) : string := trimEnd (trimStart s).

End AsciiText.

Definition asciiNatives : JS.Natives.
Proof.
  refine {| JS.toLowerCase := AsciiText.toLowerCase; JS.trim := AsciiText.trim |}.
  - intros s. destruct s; simpl; split; done.
  - reflexivity.
Defined.

(** ** The DOM below the viewer's container *)

Module DOM.

(** Elements are named by a number; a text node knows its text and the
    element it hangs under.  A text node met by a [TreeWalker] rooted at a
    text layer is a proper descendant of that layer, so its [parentNode] is
    an element of the container. *)
Definition Element := nat.

Record TextNode := {
  nodeValue : string;
  parentNode : Element
}.

(** What [highlightText] sees of the container: the class list of every
    element below it (an element without an entry has no class), and for
    each element of class [react-pdf__Page__textContent], in document
    order, the text nodes a [SHOW_TEXT] walker yields, in document order. *)
Record Container := {
  classes : gmap Element (list string);
  textLayers : list (list TextNode)
}.

Definition classList (d : gmap Element (list string)) (e : Element) : list string :=
  default [] (d !! e).

(** [DOMTokenList.contains] *)
Definition contains (cl : list string) (token : string) : bool :=
  bool_decide (token ∈ cl).

(** [DOMTokenList.add] with one token: a token list is an ordered set. *)
Definition add1 (cl : list string) (token : string) : list string :=
  if contains cl token then cl else cl ++ [token].

(** [DOMTokenList.add(...tokens)] *)
Definition add (tokens : list string) (cl : list string) : list string :=
  fold_left add1 tokens cl.

(** [DOMTokenList.remove(...tokens)] *)
Definition remove (tokens : list string) (cl : list string) : list string :=
  filter (λ t, t ∉ tokens) cl.

(** A call [target.scrollIntoView({behavior, block})]. *)
Record ScrollCall := {
  target : Element;
  behavior : string;
  block : string
}.

End DOM.

(** ** Numbers *)

(** The arithmetic the zoom handlers use.  JavaScript evaluates it on
    binary64 values; the rationals give the same expressions their exact
    decimal reading. *)
Class Number (T : Type) := {
  lit_0_1 : T;
  lit_0_5 : T;
  lit_1_0 : T;
  lit_2_0 : T;
  plus : T → T → T;
  minus : T → T → T;
  Math_min : T → T → T;
  Math_max : T → T → T;
  num_le : T → T → bool
}.

Module Binary64.

(** [Math.min] on two doubles: NaN if either is NaN, and [-0] below [+0]. *)
Definition min (a b : float) : float :=
  if (is_nan a || is_nan b)%bool then nan
  else if (a <? b)%float then a
  else if (b <? a)%float then b
  else if get_sign a then a else b.

(** [Math.max] on two doubles. *)
Definition max (a b : float) : float :=
  if (is_nan a || is_nan b)%bool then nan
  else if (a <? b)%float then b
  else if (b <? a)%float then a
  else if get_sign a then b else a.

End Binary64.

#[export] Instance binary64 : Number float := {|
  lit_0_1 := 0.1%float;
  lit_0_5 := 0.5%float;
  lit_1_0 := 1.0%float;
  lit_2_0 := 2.0%float;
  plus := PrimFloat.add;
  minus := PrimFloat.sub;
  Math_min := Binary64.min;
  Math_max := Binary64.max;
  num_le := PrimFloat.leb
|}.

#[export] Instance exact : Number Q := {|
  lit_0_1 := (1 # 10)%Q;
  lit_0_5 := (1 # 2)%Q;
  lit_1_0 := 1%Q;
  lit_2_0 := 2%Q;
  plus := Qplus;
  minus := Qminus;
  Math_min := Qmin;
  Math_max := Qmax;
  num_le := Qle_bool
|}.

(** ** src/components/PDFViewer.tsx *)

Module PDFViewer.
Import DOM.

Definition highlighted_text : string := "highlighted-text".
Definition bg_yellow_300 : string := "bg-yellow-300".

(** The element is in [querySelectorAll('.highlighted-text')]. *)
Definition isHighlight (d : gmap Element (list string)) (e : Element) : bool :=
  contains (classList d e) highlighted_text.

(** [highlights.forEach(highlight => highlight.classList.remove(
    'highlighted-text', 'bg-yellow-300'))] over the elements of the
    container that carry [highlighted-text]. *)
Definition removeHighlights (d : gmap Element (list string)) : gmap Element (list string) :=
  (λ cl, if contains cl highlighted_text
         then remove [highlighted_text; bg_yellow_300] cl
         else cl) <$> d.

(** What the scan updates: the DOM, the variables [firstMatch] and [found],
    and, to tell how often an element is marked, the elements on which
    [classList.add] has been called, in the order of the calls. *)
Record Scan := {
  dom : gmap Element (list string);
  added : list Element;
  firstMatch : option Element;
  foundSoFar : bool
}.

Section Search.
Context {natives : JS.Natives}.

(** The condition of the [if] in the walker loop:
    [node.nodeValue && node.nodeValue.toLowerCase().includes(searchText)]. *)
Definition hit (searchText : string) (node : TextNode) : bool :=
  JS.truthy (nodeValue node) &&
  JS.includes (JS.toLowerCase (nodeValue node)) searchText.

(** One turn of [while ((node = walker.nextNode()))]. *)
Definition visit (searchText : string) (st : Scan) (node : TextNode) : Scan :=
  if hit searchText node then
    let parent := parentNode node in
    if negb (contains (classList (dom st) parent) highlighted_text) then
      {| dom := <[parent := add [highlighted_text; bg_yellow_300]
                              (classList (dom st) parent)]> (dom st);
         added := added st ++ [parent];
         firstMatch := match firstMatch st with
                       | None => Some parent
                       | Some e => Some e
                       end;
         foundSoFar := true |}
    else
      {| dom := dom st; added := added st;
         firstMatch := firstMatch st; foundSoFar := true |}
  else st.

(** The walker loop over one text layer. *)
Definition walk (searchText : string) (st : Scan) (layer : list TextNode) : Scan :=
  fold_left (visit searchText) layer st.

(** [textLayers.forEach(layer => ...)] *)
Definition scanLayers (searchText : string) (st : Scan) (layers : list (list TextNode)) : Scan :=
  fold_left (walk searchText) layers st.

(** The object [highlightText] returns. *)
Record Result := { found : bool }.

(** What a call leaves behind: the container, the elements it called
    [classList.add] on, the [scrollIntoView] calls it made, and the value
    it returned. *)
Record Outcome := {
  container : option Container;
  marks : list Element;
  scrolls : list ScrollCall;
  result : Result
}.

(** [return { found: false }] before anything is touched. *)
Definition earlyReturn (containerRef : option Container) : Outcome :=
  {| container := containerRef; marks := []; scrolls := [];
     result := {| found := false |} |}.

(** [highlightText(text)], with [containerRef.current] passed in. *)
Definition highlightText (containerRef : option Container) (text : option string) : Outcome :=
  match containerRef, text with
  | Some c, Some t =>
      if negb (JS.truthy t) then earlyReturn containerRef
      else
        let cleared := removeHighlights (classes c) in
        let searchText := JS.toLowerCase t in
        let st := scanLayers searchText
                    {| dom := cleared; added := [];
                       firstMatch := None; foundSoFar := false |}
                    (textLayers c) in
        {| container := Some {| classes := dom st; textLayers := textLayers c |};
           marks := added st;
           scrolls := match firstMatch st with
                      | Some e => [{| target := e; behavior := "smooth"; block := "center" |}]
                      | None => []
                      end;
           result := {| found := foundSoFar st |} |}
  | _, _ => earlyReturn containerRef
  end.

End Search.

(** [zoomIn]: [setScale(prev => Math.min(prev + 0.1, 2.0))] *)
Definition zoomIn {T} `{Number T} (prev : T) : T :=
  Math_min (plus prev lit_0_1) lit_2_0.

(** [zoomOut]: [setScale(prev => Math.max(prev - 0.1, 0.5))] *)
Definition zoomOut {T} `{Number T} (prev : T) : T :=
  Math_max (minus prev lit_0_1) lit_0_5.

(** [useState<number>(1.0)] *)
Definition initialScale {T} `{Number T} : T := lit_1_0.

End PDFViewer.

(** ** The regular expression [\[(\d+)\]] *)

Module Pattern.

(** The text of a marker with digits [ds]. *)
Definition marker (ds : string) : string := "[" ++ ds ++ "]".

(** An attempt to match the pattern at the start of [s]: the digits the
    group captures and what follows the match.  [\d+] takes the longest run
    of digits; giving some of them back cannot help, as a digit is no [']']. *)
Definition matchAt (s : string) : option (string * string) :=
  match s with
  | String c s1 =>
      if Ascii.eqb c "[" then
        match JS.spanDigits s1 with
        | (ds, String c' rest) =>
            if JS.truthy ds && Ascii.eqb c' "]" then Some (ds, rest) else None
        | (_, EmptyString) => None
        end
      else None
  | EmptyString => None
  end.

(** [part.match(/\[(\d+)\]/)]: the group captured by the first match in
    [part], [None] when there is no match. *)
Fixpoint firstMatch (part : string) : option string :=
  match matchAt part with
  | Some (ds, _) => Some ds
  | None =>
      match part with
      | EmptyString => None
      | String _ part' => firstMatch part'
      end
  end.

(** The loop of [s.split(/(\[\d+\])/g)].  [piece] is the text read since
    the last match.  Where the pattern matches, the piece is closed, the
    match is pushed after it (it is the capture group) and the scan goes on
    behind the match; elsewhere one character joins the piece.  Each turn
    consumes a character, so [turns] bounds the loop. *)
Fixpoint splitLoop (turns : nat) (s piece : string) : list string :=
  match turns with
  | O => [piece ++ s]
  | S turns' =>
      match matchAt s with
      | Some (ds, rest) => piece :: marker ds :: splitLoop turns' rest ""
      | None =>
          match s with
          | EmptyString => [piece]
          | String c s' => splitLoop turns' s' (piece ++ String c "")
          end
      end
  end.

(** [s.split(/(\[\d+\])/g)] *)
Definition split (s : string) : list string :=
  splitLoop (S (String.length s)) s "".

End Pattern.

(** ** src/App.tsx *)

Module Citation.
Record t := {
  id : float;
  text : string;
  page : Z
}.
End Citation.

Module Message.
Record t := {
  id : string;
  content : string;
  isUser : bool;
  timestamp : Z;
  citations : option (list Citation.t)
}.
End Message.

Module App.
Import DOM.

(** What the click handler reaches outside React state: the viewer behind
    [pdfViewerRef.current] ([None] while it is null) with the container
    behind its [containerRef.current], the [scrollIntoView] calls made so
    far and the [alert] dialogs shown so far. *)
Record Viewer := { containerRef : option Container }.

Record Browser := {
  pdfViewerRef : option Viewer;
  scrollCalls : list ScrollCall;
  alerts : list string
}.

Definition quote : string := String (ascii_of_N 34) "".

Section Click.
Context {natives : JS.Natives}.

(** The template literal of the dialog. *)
Definition notFoundMessage (citation : Citation.t) : string :=
  "The reference " ++ quote ++ Citation.text citation ++ quote ++
  " could not be found on page " ++ pretty (Citation.page citation) ++ ".".

(** [pdfViewerRef.current.highlightText(citation.text)] *)
Definition callHighlightText (viewer : Viewer) (text : string) (b : Browser)
  : Browser * PDFViewer.Result :=
  let o := PDFViewer.highlightText (containerRef viewer) (Some text) in
  ({| pdfViewerRef := Some {| containerRef := PDFViewer.container o |};
      scrollCalls := scrollCalls b ++ PDFViewer.scrolls o;
      alerts := alerts b |},
   PDFViewer.result o).

(** [alert(message)] *)
Definition alert (message : string) (b : Browser) : Browser :=
  {| pdfViewerRef := pdfViewerRef b;
     scrollCalls := scrollCalls b;
     alerts := alerts b ++ [message] |}.

(** [handleCitationClick] *)
Definition handleCitationClick (citation : Citation.t) (b : Browser) : Browser :=
  match pdfViewerRef b with
  | Some viewer =>
      let '(b', highlightResult) := callHighlightText viewer (Citation.text citation) b in
      if negb (PDFViewer.found highlightResult)
      then alert (notFoundMessage citation) b'
      else b'
  | None => b
  end.

End Click.

(** A child of the message's [div]: a string, or the clickable [span]
    whose [onClick] is [() => handleCitationClick(citation)]. *)
Inductive Child :=
| text (part : string)
| span (key : nat) (citation : Citation.t) (part : string).

(** What [formatMessageContent] returns: the content string itself, or an
    array of children. *)
Inductive Formatted :=
| plain (content : string)
| children (parts : list Child).

(** The callback of [map]. *)
Definition formatPart (citations : list Citation.t) (index : nat) (part : string) : Child :=
  match Pattern.firstMatch part with
  | Some digits =>
      let citationId := JS.parseInt digits in
      match find (λ c, Citation.id c =? citationId)%float citations with
      | Some citation => span index citation part
      | None => text part
      end
  | None => text part
  end.

(** [formatMessageContent] *)
Definition formatMessageContent (content : string) (citations : option (list Citation.t)) : Formatted :=
  match citations with
  | None => plain content
  | Some [] => plain content
  | Some cs => children (imap (formatPart cs) (Pattern.split content))
  end.

(** The callback handed to [setTimeout]. *)
Inductive Callback := appendSampleResponse.

Record Timeout := {
  callback : Callback;
  delay : Z
}.

(** The React state of the panel and the timers it has set. *)
Record Panel := {
  messages : list Message.t;
  inputMessage : string;
  timeouts : list Timeout
}.

(** [handleSendMessage], with the clock reading [now] of [Date.now()] and
    [new Date()].  [e.preventDefault()] acts on the event alone and is left
    out. *)
Definition handleSendMessage {natives : JS.Natives} (now : Z) (p : Panel) : Panel :=
  if negb (JS.truthy (JS.trim (inputMessage p))) then p
  else
    let newMessage := {|
      Message.id := pretty now;
      Message.content := inputMessage p;
      Message.isUser := true;
      Message.timestamp := now;
      Message.citations := None |} in
    {| messages := messages p ++ [newMessage];
       inputMessage := "";
       timeouts := timeouts p ++ [{| callback := appendSampleResponse; delay := 1000 |}] |}.

(** The timer firing at clock reading [now]. *)
Definition run (cb : Callback) (now : Z) (p : Panel) : Panel :=
  match cb with
  | appendSampleResponse =>
      let response := {|
        Message.id := pretty (now + 1)%Z;
        Message.content := "This is a sample response with a citation [1].";
        Message.isUser := false;
        Message.timestamp := now;
        Message.citations :=
          Some [{| Citation.id := 1%float; Citation.text := "Sample citation text"; Citation.page := 1 |}] |} in
      {| messages := messages p ++ [response];
         inputMessage := inputMessage p;
         timeouts := timeouts p |}
  end.

End App.

(** ** The second version of App.tsx *)

(** It differs from the first in [handleCitationClick], which keeps a
    [currentPage] state; [formatMessageContent] and [handleSendMessage] are
    the same text. *)
Module App2.
Import DOM.

Record State := {
  browser : App.Browser;
  currentPage : Z
}.

(** [handleCitationClick] *)
Definition handleCitationClick {natives : JS.Natives} (citation : Citation.t) (s : State) : State :=
  match App.pdfViewerRef (browser s) with
  | Some viewer =>
      let '(b', highlightResult) :=
        App.callHighlightText viewer (Citation.text citation) (browser s) in
      if PDFViewer.found highlightResult
      then {| browser := b'; currentPage := Citation.page citation |}
      else {| browser := App.alert (App.notFoundMessage citation) b';
              currentPage := currentPage s |}
  | None => s
  end.

End App2.

(** * The vocabulary of the properties *)

Section Vocabulary.
Import DOM PDFViewer.
Context {natives : JS.Natives}.

(** How often a token stands in a class list. *)
Definition occurrences (t : string) (cl : list string) : nat :=
  length (filter (λ u, u = t) cl).

(** [text] contains [S] as a substring, letter case apart: the lower-cased
    [S] stands somewhere in the lower-cased [text]. *)
Definition containsIgnoringCase (text S : string) : Prop :=
  ∃ pre post, JS.toLowerCase text = pre ++ JS.toLowerCase S ++ post.

(** The text a layer shows: its fragments one after the other. *)
Definition visibleText (layer : list TextNode) : string :=
  foldr (λ node rest, nodeValue node ++ rest) "" layer.

(** Element [e] holds a text node of some text layer whose text contains [S]. *)
Definition holdsMatch (c : Container) (S : string) (e : Element) : Prop :=
  ∃ layer node, layer ∈ textLayers c ∧ node ∈ layer ∧
    parentNode node = e ∧ containsIgnoringCase (nodeValue node) S.

(** The node makes the scan mark element [e]. *)
Definition hitAt (searchText : string) (e : Element) (n : TextNode) : bool :=
  hit searchText n && bool_decide (parentNode n = e).

(** What holds after the scan for [searchText] has visited the nodes
    [seen], started on the DOM [d0] with no highlight in it. *)
Record ScanInv (searchText : string) (d0 : gmap Element (list string))
    (seen : list TextNode) (st : Scan) : Prop := {
  inv_dom : ∀ e, classList (dom st) e =
                 if existsb (hitAt searchText e) seen
                 then add [highlighted_text; bg_yellow_300] (classList d0 e)
                 else classList d0 e;
  inv_found : foundSoFar st = existsb (hit searchText) seen;
  inv_nodup : NoDup (added st);
  inv_added : ∀ e, e ∈ added st ↔ existsb (hitAt searchText e) seen = true;
  inv_first : firstMatch st = parentNode <$> List.find (hit searchText) seen;
  inv_head : firstMatch st = head (added st)
}.

(** The [scrollIntoView] call of [highlightText]. *)
Definition smoothToCenter (e : Element) : ScrollCall :=
  {| target := e; behavior := "smooth"; block := "center" |}.

(** A container with two pages.  The phrase "EBITDA increased" is split
    over two fragments of the first page; element 4 still carries the
    highlight of an earlier search. *)
Definition sampleContainer : Container :=
  {| classes := {[ 4 := ["highlighted-text"; "bg-yellow-300"] ]};
     textLayers :=
       [ [ {| nodeValue := "EBITDA incr"; parentNode := 1 |};
           {| nodeValue := "eased to USD 2.3 bn"; parentNode := 2 |} ];
         [ {| nodeValue := "Gain on sale"; parentNode := 3 |};
           {| nodeValue := "Ebitda margin"; parentNode := 4 |};
           {| nodeValue := "adjusted EBITDA"; parentNode := 5 |} ] ] |}.

(** [clamp(x, lo, hi)]: [x] brought into [[lo, hi]]. *)
Definition clamp {T} `{Number T} (x lo hi : T) : T :=
  Math_max lo (Math_min x hi).

(** The values the [scale] state can take: it starts at [initialScale] and
    changes by [zoomIn] and [zoomOut] only. *)
Inductive reachable {T} `{Number T} : T → Prop :=
| reach_initial : reachable initialScale
| reach_zoomIn (s : T) : reachable s → reachable (zoomIn s)
| reach_zoomOut (s : T) : reachable s → reachable (zoomOut s).

(** [x] is one of the doubles in [l]. *)
Definition among (l : list float) (x : float) : bool :=
  existsb (PrimFloat.Leibniz.eqb x) l.

(** The doubles met when zooming in and out from the scales in [todo],
    those in [seen] being known already. *)
Fixpoint explore (fuel : nat) (todo seen : list float) : list float :=
  match fuel with
  | O => seen
  | S fuel' =>
      match todo with
      | [] => seen
      | s :: todo' =>
          if among seen s then explore fuel' todo' seen
          else explore fuel' (zoomIn s :: zoomOut s :: todo') (s :: seen)
      end
  end.

(** Every double the scale can take. *)
Definition scales : list float := explore 200 [initialScale] [].

(** The citation with another page hint. *)
Definition withPage (citation : Citation.t) (page' : Z) : Citation.t :=
  {| Citation.id := Citation.id citation;
     Citation.text := Citation.text citation;
     Citation.page := page' |}.

(** A browser showing [sampleContainer], nothing scrolled or alerted yet. *)
Definition sampleBrowser : App.Browser :=
  {| App.pdfViewerRef := Some {| App.containerRef := Some sampleContainer |};
     App.scrollCalls := [];
     App.alerts := [] |}.

(** Nothing but white space stands in [s]: trimming it leaves the empty
    string. *)
Definition blank (s : string) : Prop := JS.trim s = "".

Global Instance blank_dec (s : string) : Decision (blank s).
Proof. unfold blank. apply _. Defined.

(** The strict equality [a === b] of two numbers: equality of doubles,
    which no NaN satisfies and which does not tell the two zeros apart. *)
Definition strictEquals (a b : float) : Prop := (a =? b)%float = true.

(** The integer a double stands for, when it stands for one. *)
Definition integerOf (x : float) : option Z :=
  match Prim2SF x with
  | S754_zero _ => Some 0%Z
  | S754_finite s m e =>
      let n := if s then Z.neg m else Z.pos m in
      if (0 <=? e)%Z then Some (n * 2 ^ e)%Z
      else if (n mod 2 ^ (- e) =? 0)%Z then Some (n / 2 ^ (- e))%Z
      else None
  | _ => None
  end.

(** [ds] is a run of decimal digits. *)
Definition allDigits (ds : string) : Prop :=
  Forall (λ c, JS.isDigit c = true) (list_ascii_of_string ds).

Global Instance allDigits_dec (ds : string) : Decision (allDigits ds).
Proof. unfold allDigits. apply _. Defined.

(** The strings of a list, one after the other. *)
Definition joined (parts : list string) : string :=
  foldr String.append "" parts.

(** The text a child shows. *)
Definition childText (child : App.Child) : string :=
  match child with
  | App.text part => part
  | App.span _ _ part => part
  end.

End Vocabulary.

(** * More of the two files *)

(** ** src/components/PDFViewer.tsx: what the toolbar and the page list show *)

Module PDFViewerView.

(** [Math.round(x)] of a finite double, as an integer: the integer nearest
    to [x], the larger one on a tie, that is [floor(x + 1/2)] computed
    exactly from the double's mantissa and exponent.  [None] for NaN and
    the infinities. *)
Definition Math_round (x : float) : option Z :=
  match Prim2SF x with
  | S754_zero _ => Some 0%Z
  | S754_finite s m e =>
      let n := if s then Z.neg m else Z.pos m in
      if (0 <=? e)%Z then Some (n * 2 ^ e)%Z
      else Some ((2 * n + 2 ^ (- e)) / (2 * 2 ^ (- e)))%Z
  | _ => None
  end.

(** The number in [{Math.round(scale * 100)}%]. *)
Definition zoomPercent (scale : float) : option Z :=
  Math_round (scale * 100)%float.

(** The props of one rendered page: the [key] of its wrapper and what is
    passed to [Page]. *)
Record PageProps := {
  key : string;
  pageNumber : nat;
  scale : float;
  width : Z;
  renderTextLayer : bool;
  renderAnnotationLayer : bool
}.

(** [Array.from({ length: numPages }, (_, index) => ...)] *)
Definition pages (numPages : nat) (scale : float) : list PageProps :=
  (λ index, {| key := "page_" ++ pretty (index + 1);
               pageNumber := index + 1;
               scale := scale;
               width := 800;
               renderTextLayer := true;
               renderAnnotationLayer := true |}) <$> seq 0 numPages.

End PDFViewerView.

(** ** src/App.tsx: the theme *)

Module Theme.

(** What the theme code reaches in the browser: [localStorage], the class
    list of [document.documentElement], and
    [matchMedia('(prefers-color-scheme: dark)').matches]. *)
Record Window := {
  localStorage : gmap string string;
  documentElement : list string;
  prefersDark : bool
}.

(** The initialiser of [useState] for [darkMode]; [None] stands for
    [typeof window === 'undefined']. *)
Definition initialDarkMode (window : option Window) : bool :=
  match window with
  | Some w =>
      match localStorage w !! "theme" with
      | Some savedTheme =>
          if JS.truthy savedTheme then bool_decide (savedTheme = "dark")
          else prefersDark w
      | None => prefersDark w
      end
  | None => false
  end.

(** [toggleDarkMode]: [setDarkMode(prev => !prev)] *)
Definition toggleDarkMode (prev : bool) : bool := negb prev.

(** The effect run when [darkMode] changes, and after the first render. *)
Definition applyDarkMode (darkMode : bool) (w : Window) : Window :=
  if darkMode then
    {| localStorage := <["theme" := "dark"]> (localStorage w);
       documentElement := DOM.add ["dark"] (documentElement w);
       prefersDark := prefersDark w |}
  else
    {| localStorage := <["theme" := "light"]> (localStorage w);
       documentElement := DOM.remove ["dark"] (documentElement w);
       prefersDark := prefersDark w |}.

End Theme.

(** ** src/App.tsx: what happens to the panel over time *)

Module Transcript.

(** [onChange={(e) => setInputMessage(e.target.value)}] *)
Definition handleChange (value : string) (p : App.Panel) : App.Panel :=
  {| App.messages := App.messages p;
     App.inputMessage := value;
     App.timeouts := App.timeouts p |}.

(** The oldest pending timer fires, at clock reading [now]: all timers
    are set with the same delay, so they fire in the order they were set. *)
Definition fire (now : Z) (p : App.Panel) : App.Panel :=
  match App.timeouts p with
  | [] => p
  | t :: rest =>
      App.run (App.callback t) now
        {| App.messages := App.messages p;
           App.inputMessage := App.inputMessage p;
           App.timeouts := rest |}
  end.

(** What can happen to the panel: the user types, the form is submitted,
    a timer fires. *)
Inductive Event :=
| typed (value : string)
| submitted (now : Z)
| fired (now : Z).

Definition step {natives : JS.Natives} (p : App.Panel) (e : Event) : App.Panel :=
  match e with
  | typed value => handleChange value p
  | submitted now => App.handleSendMessage now p
  | fired now => fire now p
  end.

(** The panel after a sequence of events. *)
Definition after {natives : JS.Natives} (events : list Event) (p : App.Panel) : App.Panel :=
  fold_left step events p.

End Transcript.

(** ** Vocabulary of the further properties *)

Section MoreVocabulary.
Import DOM PDFViewer.
Context {natives : JS.Natives}.

(** The elements of [l] in the order they first occur, each once. *)
Definition firstOccurrences (l : list Element) : list Element :=
  fold_left (λ acc e, if bool_decide (e ∈ acc) then acc else (acc ++ [e])%list) l [].

(** Two text nodes under the same parent whose texts differ in letter
    case only. *)
Definition sameUpToCase (n1 n2 : TextNode) : Prop :=
  parentNode n1 = parentNode n2 ∧
  JS.toLowerCase (nodeValue n1) = JS.toLowerCase (nodeValue n2).

(** How many messages of the list are the user's, how many are not. *)
Definition userMessages (ms : list Message.t) : nat :=
  length (filter (λ m, Message.isUser m = true) ms).

Definition assistantMessages (ms : list Message.t) : nat :=
  length (filter (λ m, Message.isUser m = false) ms).

(** No match of the pattern starts inside [piece] when [s] follows it. *)
Definition clean (piece s : string) : Prop :=
  ∀ pre x, piece = pre ++ x → x ≠ "" → Pattern.matchAt (x ++ s) = None.

(** What is checked of the number shown, on one scale: it is a multiple
    of ten between 50 and 200, and the two zoom steps move it by ten
    within these bounds. *)
Definition percentStepsOk (s : float) : bool :=
  match PDFViewerView.zoomPercent s, PDFViewerView.zoomPercent (zoomIn s), PDFViewerView.zoomPercent (zoomOut s) with
  | Some p, Some up, Some down =>
      ((p mod 10 =? 0) && (50 <=? p) && (p <=? 200) &&
       (up =? Z.min (p + 10) 200) && (down =? Z.max (p - 10) 50))%Z
  | _, _, _ => false
  end.

End MoreVocabulary.

(** * Facts about strings *)

Section StringFacts.

Lemma append_nil_l (s : string) : "" ++ s = s.
Proof. done. Qed.

Lemma append_cons (c : ascii) (s t : string) : String c s ++ t = String c (s ++ t).
Proof. done. Qed.

Lemma append_nil_r (s : string) : s ++ "" = s.
Proof. induction s as [|c s IH]; simpl; [done | by rewrite IH]. Qed.

Lemma append_assoc (s t u : string) : (s ++ t) ++ u = s ++ t ++ u.
Proof. induction s as [|c s IH]; simpl; [done | by rewrite IH]. Qed.

Lemma length_append (s t : string) :
  String.length (s ++ t) = String.length s + String.length t.
Proof. induction s as [|c s IH]; simpl; [done | by rewrite IH]. Qed.

Lemma startsWith_spec (t s : string) :
  JS.startsWith t s = true ↔ ∃ post, t = s ++ post.
Proof.
  revert t. induction s as [|a s IH]; intros t; simpl.
  - split; [intros _; by exists t | done].
  - destruct t as [|b t].
    + split; [done | intros [post Hp]; discriminate].
    + rewrite andb_true_iff, Ascii.eqb_eq, IH. split.
      * intros [-> [post ->]]. by exists post.
      * intros [post Hp]. injection Hp as -> ->. eauto.
Qed.

(** [includes] finds exactly the occurrences of [s] in [t]. *)
Lemma includes_spec (t s : string) :
  JS.includes t s = true ↔ ∃ pre post, t = pre ++ s ++ post.
Proof.
  induction t as [|b t IH]; simpl; rewrite orb_true_iff, startsWith_spec.
  - split.
    + intros [[post Hp] | ?]; [| done]. exists "", post. done.
    + intros (pre & post & Hp). left.
      destruct pre; [by exists post | discriminate].
  - rewrite IH. split.
    + intros [[post Hp] | (pre & post & ->)].
      * exists "", post. done.
      * exists (String b pre), post. done.
    + intros (pre & post & Hp). destruct pre as [|c pre]; simpl in Hp.
      * left. by exists post.
      * right. injection Hp as -> ->. eauto.
Qed.

Lemma toLowerCase_empty {natives : JS.Natives} (s : string) : JS.toLowerCase s = "" ↔ s = "".
Proof. apply JS.toLowerCase_is_empty. Qed.

Lemma toLowerCase_truthy {natives : JS.Natives} (s : string) :
  JS.truthy (JS.toLowerCase s) = JS.truthy s.
Proof.
  pose proof (toLowerCase_empty s) as Hs.
  destruct s as [|c s]; destruct (JS.toLowerCase _) as [|d t]; simpl; try done.
  - by apply proj2 in Hs; specialize (Hs eq_refl).
  - by apply proj1 in Hs; specialize (Hs eq_refl).
Qed.

Lemma truthy_true (s : string) : JS.truthy s = true ↔ s ≠ "".
Proof. destruct s; simpl; split; done. Qed.

Lemma append_empty (s t : string) : s ++ t = "" → s = "" ∧ t = "".
Proof. destruct s; simpl; [done | discriminate]. Qed.

End StringFacts.

(** * Facts about class lists *)

Section TokenLists.
Import DOM.

Lemma contains_true (cl : list string) (t : string) : contains cl t = true ↔ t ∈ cl.
Proof. unfold contains. by rewrite bool_decide_eq_true. Qed.

Lemma contains_false (cl : list string) (t : string) : contains cl t = false ↔ t ∉ cl.
Proof. unfold contains. by rewrite bool_decide_eq_false. Qed.

Lemma elem_of_add1 (cl : list string) (t u : string) : u ∈ add1 cl t ↔ u ∈ cl ∨ u = t.
Proof.
  unfold add1. destruct (contains cl t) eqn:E.
  - apply contains_true in E. split; [auto | by intros [?| ->]].
  - by rewrite elem_of_app, list_elem_of_singleton.
Qed.

Lemma elem_of_add (ts cl : list string) (u : string) : u ∈ add ts cl ↔ u ∈ cl ∨ u ∈ ts.
Proof.
  unfold add. revert cl. induction ts as [|t ts IH]; intros cl; simpl.
  - rewrite elem_of_nil. tauto.
  - rewrite IH, elem_of_add1, elem_of_cons. tauto.
Qed.

Lemma elem_of_remove (ts cl : list string) (u : string) : u ∈ remove ts cl ↔ u ∈ cl ∧ u ∉ ts.
Proof. unfold remove. rewrite list_elem_of_filter. tauto. Qed.

Lemma occurrences_app (t : string) (cl1 cl2 : list string) :
  occurrences t (cl1 ++ cl2) = occurrences t cl1 + occurrences t cl2.
Proof. unfold occurrences. by rewrite filter_app, length_app. Qed.

Lemma occurrences_absent (t : string) (cl : list string) : t ∉ cl → occurrences t cl = 0.
Proof.
  unfold occurrences. induction cl as [|u cl IH]; intros Hn; [done |].
  rewrite not_elem_of_cons in Hn. destruct Hn as [Hne Hn].
  rewrite filter_cons_False by congruence. auto.
Qed.

Lemma occurrences_add1 (t u : string) (cl : list string) :
  occurrences t (add1 cl u) =
  occurrences t cl + (if bool_decide (u = t ∧ u ∉ cl) then 1 else 0).
Proof.
  unfold add1. destruct (contains cl u) eqn:E.
  - apply contains_true in E. rewrite bool_decide_eq_false_2 by tauto. lia.
  - apply contains_false in E. rewrite occurrences_app. f_equal.
    unfold occurrences. case_bool_decide as H.
    + destruct H as [-> _]. by rewrite filter_cons_True.
    + rewrite filter_cons_False by tauto. done.
Qed.

End TokenLists.

(** * The scan of [highlightText] *)

Section ListFacts.
Context {A : Type}.

Lemma find_app (f : A → bool) (l1 l2 : list A) :
  List.find f (l1 ++ l2) =
  match List.find f l1 with
  | Some x => Some x
  | None => List.find f l2
  end.
Proof. induction l1 as [|x l1 IH]; simpl; [done |]. by destruct (f x). Qed.

Lemma find_is_Some (f : A → bool) (l : list A) :
  is_Some (List.find f l) ↔ existsb f l = true.
Proof.
  induction l as [|x l IH]; simpl.
  - split; [by intros [? ?] | done].
  - destruct (f x); simpl; [split; eauto | done].
Qed.

Lemma find_split (f : A → bool) (l : list A) (x : A) :
  List.find f l = Some x ↔
  ∃ l1 l2, l = (l1 ++ x :: l2)%list ∧ f x = true ∧ ∀ y, y ∈ l1 → f y = false.
Proof.
  induction l as [|y l IH]; simpl.
  - split; [done | intros ([|? ?] & ? & ? & _); discriminate].
  - destruct (f y) eqn:Hy.
    + split.
      * intros [= ->]. exists [], l. split_and!; [done.. |].
        intros ? ?%elem_of_nil. done.
      * intros ([|z l1] & l2 & Hl & Hx & Hno); simplify_eq/=; [done |].
        rewrite Hno in Hy; [done | left].
    + rewrite IH. split.
      * intros (l1 & l2 & -> & Hx & Hno). exists (y :: l1), l2.
        split_and!; [done.. |]. intros z [-> | ?]%elem_of_cons; auto.
      * intros ([|z l1] & l2 & Hl & Hx & Hno); simplify_eq/=; [congruence |].
        exists l1, l2. split_and!; [done.. |]. intros. apply Hno. by right.
Qed.

Lemma existsb_elem_of (f : A → bool) (l : list A) :
  existsb f l = true ↔ ∃ x, x ∈ l ∧ f x = true.
Proof.
  rewrite existsb_exists. split; intros (x & H1 & H2); exists x; split; try done;
    by apply list_elem_of_In.
Qed.

Lemma existsb_snoc (f : A → bool) (l : list A) (x : A) :
  existsb f (l ++ [x]) = existsb f l || f x.
Proof. rewrite existsb_app. simpl. by rewrite orb_false_r. Qed.

Lemma elem_of_concat (x : A) (ls : list (list A)) :
  x ∈ concat ls ↔ ∃ l, l ∈ ls ∧ x ∈ l.
Proof.
  induction ls as [|l0 ls IH]; simpl.
  - rewrite elem_of_nil. split; [done | intros (l & []%elem_of_nil & _)].
  - rewrite elem_of_app, IH. split.
    + intros [H | (l & H1 & H2)]; [exists l0 | exists l]; split; try done; [left | by right].
    + intros (l & [-> | H1]%elem_of_cons & H2); [by left | right; eauto].
Qed.

End ListFacts.

Section Scan.
Import DOM PDFViewer.
Context {natives : JS.Natives}.

Variable searchText : string.
Variable d0 : gmap Element (list string).
Hypothesis d0_clear : ∀ e, isHighlight d0 e = false.

Lemma classList_insert (d : gmap Element (list string)) (p e : Element) (v : list string) :
  classList (<[p := v]> d) e = if decide (p = e) then v else classList d e.
Proof. unfold classList. rewrite lookup_insert. by case_decide. Qed.

Lemma isHighlight_added (cl : list string) :
  contains (add [highlighted_text; bg_yellow_300] cl) highlighted_text = true.
Proof. apply contains_true, elem_of_add. right. left. Qed.

Lemma ScanInv_isHighlight (seen : list TextNode) (st : Scan) (e : Element) :
  ScanInv searchText d0 seen st → isHighlight (dom st) e = existsb (hitAt searchText e) seen.
Proof.
  intros I. unfold isHighlight. rewrite (inv_dom _ _ _ _ I).
  destruct (existsb (hitAt searchText e) seen); [apply isHighlight_added | apply d0_clear].
Qed.

Lemma ScanInv_init :
  ScanInv searchText d0 [] {| dom := d0; added := []; firstMatch := None; foundSoFar := false |}.
Proof.
  split; simpl; try done.
  - constructor.
  - intros e. rewrite elem_of_nil. split; [tauto | done].
Qed.

Lemma hitAt_hit (e : Element) (seen : list TextNode) :
  existsb (hitAt searchText e) seen = true → existsb (hit searchText) seen = true.
Proof.
  rewrite !existsb_elem_of. intros (n & Hn & [H _]%andb_true_iff). eauto.
Qed.

Lemma ScanInv_visit (seen : list TextNode) (st : Scan) (n : TextNode) :
  ScanInv searchText d0 seen st → ScanInv searchText d0 (seen ++ [n]) (visit searchText st n).
Proof.
  intros I. pose proof (ScanInv_isHighlight seen st (parentNode n) I) as Hp.
  unfold isHighlight in Hp. unfold visit.
  assert (Hat : ∀ e, hitAt searchText e n = hit searchText n && bool_decide (parentNode n = e)) by done.
  destruct (hit searchText n) eqn:Hn.
  - destruct (contains (classList (dom st) (parentNode n)) highlighted_text) eqn:Hc;
      cbn [negb]; symmetry in Hp.
    + (* the parent is highlighted already *)
      pose proof (hitAt_hit _ _ Hp) as Hs.
      split; cbn [dom added firstMatch foundSoFar].
      * intros e. rewrite (inv_dom _ _ _ _ I), existsb_snoc, Hat. cbn [andb].
        case_bool_decide as He; [subst e; by rewrite Hp | by rewrite orb_false_r].
      * by rewrite existsb_snoc, Hn, orb_true_r.
      * apply (inv_nodup _ _ _ _ I).
      * intros e. rewrite (inv_added _ _ _ _ I), existsb_snoc, Hat. cbn [andb].
        case_bool_decide as He; [subst e; by rewrite Hp | by rewrite orb_false_r].
      * rewrite (inv_first _ _ _ _ I), find_app.
        apply find_is_Some in Hs. destruct Hs as [x ->]. done.
      * apply (inv_head _ _ _ _ I).
    + (* first hit under this parent *)
      assert (Hfresh : parentNode n ∉ added st).
      { rewrite (inv_added _ _ _ _ I). by rewrite Hp. }
      split; cbn [dom added firstMatch foundSoFar].
      * intros e. rewrite classList_insert, existsb_snoc, Hat. cbn [andb].
        rewrite !(inv_dom _ _ _ _ I), Hp.
        case_decide as He.
        -- subst e. rewrite bool_decide_eq_true_2 by done. by rewrite orb_true_r.
        -- rewrite bool_decide_eq_false_2 by done. by rewrite orb_false_r.
      * by rewrite existsb_snoc, Hn, orb_true_r.
      * apply NoDup_app. split_and!; [apply (inv_nodup _ _ _ _ I) | | apply NoDup_singleton].
        intros e He ->%list_elem_of_singleton. done.
      * intros e.
        rewrite elem_of_app, list_elem_of_singleton, (inv_added _ _ _ _ I), existsb_snoc, Hat.
        cbn [andb]. rewrite orb_true_iff, bool_decide_eq_true.
        split; intros [?|?]; auto.
      * rewrite find_app. cbn [List.find]. rewrite Hn.
        pose proof (inv_first _ _ _ _ I) as Hf.
        destruct (List.find (hit searchText) seen) as [x|]; simpl in *; by rewrite Hf.
      * pose proof (inv_head _ _ _ _ I) as Hh. rewrite Hh.
        destruct (added st); done.
  - destruct I as [I1 I2 I3 I4 I5 I6]. split; try done.
    + intros e. by rewrite I1, existsb_snoc, Hat, orb_false_r.
    + by rewrite I2, existsb_snoc, Hn, orb_false_r.
    + intros e. by rewrite I4, existsb_snoc, Hat, orb_false_r.
    + rewrite I5, find_app. cbn [List.find]. rewrite Hn.
      by destruct (List.find (hit searchText) seen).
Qed.

Lemma ScanInv_fold (l seen : list TextNode) (st : Scan) :
  ScanInv searchText d0 seen st → ScanInv searchText d0 (seen ++ l) (fold_left (visit searchText) l st).
Proof.
  revert seen st. induction l as [|n l IH]; intros seen st I; simpl.
  - by rewrite app_nil_r.
  - replace (seen ++ n :: l)%list with ((seen ++ [n]) ++ l)%list by by rewrite <- app_assoc.
    apply IH, ScanInv_visit, I.
Qed.

End Scan.

Section ScanLayers.
Import DOM PDFViewer.
Context {natives : JS.Natives}.

Lemma scanLayers_concat (searchText : string) (layers : list (list TextNode)) (st : Scan) :
  scanLayers searchText st layers = fold_left (visit searchText) (concat layers) st.
Proof.
  unfold scanLayers. revert st. induction layers as [|l ls IH]; intros st; simpl; [done |].
  rewrite fold_left_app. apply IH.
Qed.

End ScanLayers.

(** * What [highlightText] does *)

Section Locate.
Import DOM PDFViewer.
Context {natives : JS.Natives}.

Lemma containsIgnoringCase_includes (text S : string) :
  containsIgnoringCase text S ↔
  JS.includes (JS.toLowerCase text) (JS.toLowerCase S) = true.
Proof.
  unfold containsIgnoringCase. by rewrite includes_spec.
Qed.

Lemma hit_spec (S : string) (n : TextNode) :
  S ≠ "" →
  hit (JS.toLowerCase S) n = true ↔ containsIgnoringCase (nodeValue n) S.
Proof.
  intros HS. unfold hit. rewrite andb_true_iff, truthy_true, containsIgnoringCase_includes.
  split; [tauto |]. intros H. split; [| done]. intros Hempty.
  rewrite Hempty, (proj2 (toLowerCase_empty "") eq_refl) in H.
  apply includes_spec in H as (pre & post & H).
  symmetry in H. apply append_empty in H as [_ H]. apply append_empty in H as [H _].
  by apply HS, toLowerCase_empty.
Qed.

Lemma classList_removeHighlights (d : gmap Element (list string)) (e : Element) :
  classList (removeHighlights d) e =
  if contains (classList d e) highlighted_text
  then remove [highlighted_text; bg_yellow_300] (classList d e)
  else classList d e.
Proof.
  unfold classList, removeHighlights. rewrite lookup_fmap.
  destruct (d !! e); done.
Qed.

Lemma removeHighlights_clear (d : gmap Element (list string)) (e : Element) :
  isHighlight (removeHighlights d) e = false.
Proof.
  unfold isHighlight. rewrite classList_removeHighlights.
  destruct (contains (classList d e) highlighted_text) eqn:E; [| done].
  apply contains_false. rewrite elem_of_remove. intros [_ H]. apply H. left.
Qed.

Lemma removeHighlights_idemp (d : gmap Element (list string)) :
  removeHighlights (removeHighlights d) = removeHighlights d.
Proof.
  apply map_eq. intros e. unfold removeHighlights. rewrite !lookup_fmap.
  destruct (d !! e) as [cl|]; [| done]. simpl. f_equal.
  destruct (contains cl highlighted_text) eqn:E; [| by rewrite E].
  replace (contains (remove [highlighted_text; bg_yellow_300] cl) highlighted_text)
    with false; [done |].
  symmetry. apply contains_false. rewrite elem_of_remove. intros [_ H]. apply H. left.
Qed.

(** The outcome of a call with a non-empty string, in terms of the state
    the scan ends in. *)
Lemma highlightText_outcome (c : Container) (S : string) :
  S ≠ "" →
  ∃ st,
    ScanInv (JS.toLowerCase S) (removeHighlights (classes c)) (concat (textLayers c)) st ∧
    highlightText (Some c) (Some S) =
      {| container := Some {| classes := dom st; textLayers := textLayers c |};
         marks := added st;
         scrolls := match firstMatch st with
                    | Some e => [smoothToCenter e]
                    | None => []
                    end;
         result := {| found := foundSoFar st |} |}.
Proof.
  intros HS. eexists. split; [| unfold highlightText].
  2: { destruct S; [done |]. cbn [JS.truthy negb]. rewrite scanLayers_concat. reflexivity. }
  apply (ScanInv_fold _ _ (removeHighlights_clear (classes c)) _ []), ScanInv_init.
Qed.

Lemma existsb_hit (S : string) (l : list TextNode) :
  S ≠ "" →
  existsb (hit (JS.toLowerCase S)) l = true ↔
  ∃ n, n ∈ l ∧ containsIgnoringCase (nodeValue n) S.
Proof.
  intros HS. rewrite existsb_elem_of. by setoid_rewrite (hit_spec S _ HS).
Qed.

Lemma existsb_hitAt (c : Container) (S : string) (e : Element) :
  S ≠ "" →
  existsb (hitAt (JS.toLowerCase S) e) (concat (textLayers c)) = true ↔ holdsMatch c S e.
Proof.
  intros HS. rewrite existsb_elem_of. unfold holdsMatch, hitAt. split.
  - intros (n & Hn & [Hh Hp]%andb_true_iff).
    apply elem_of_concat in Hn as (layer & Hl & Hn).
    apply bool_decide_eq_true in Hp. apply (hit_spec S _ HS) in Hh.
    by exists layer, n.
  - intros (layer & n & Hl & Hn & Hp & Hh). exists n. split.
    + apply elem_of_concat. eauto.
    + rewrite andb_true_iff, bool_decide_eq_true. split; [by apply hit_spec | done].
Qed.

Lemma holdsMatch_layers (c c' : Container) (S : string) (e : Element) :
  textLayers c = textLayers c' → holdsMatch c S e ↔ holdsMatch c' S e.
Proof. unfold holdsMatch. by intros ->. Qed.

(** The elements highlighted when a call returns. *)
Lemma highlightText_highlighted (c : Container) (S : string) :
  S ≠ "" →
  ∃ c', container (highlightText (Some c) (Some S)) = Some c' ∧
    textLayers c' = textLayers c ∧
    ∀ e, isHighlight (classes c') e = true ↔ holdsMatch c S e.
Proof.
  intros HS. destruct (highlightText_outcome c S HS) as (st & I & ->).
  eexists. split_and!; [done.. |]. intros e. cbn [classes].
  rewrite (ScanInv_isHighlight _ _ (removeHighlights_clear (classes c)) _ _ e I).
  by apply existsb_hitAt.
Qed.

(** The class list of an element when a call returns. *)
Lemma highlightText_classList (c : Container) (S : string) :
  S ≠ "" →
  ∃ c', container (highlightText (Some c) (Some S)) = Some c' ∧
    textLayers c' = textLayers c ∧
    ∀ e, classList (classes c') e =
         if isHighlight (classes c') e
         then add [highlighted_text; bg_yellow_300]
                (classList (removeHighlights (classes c)) e)
         else classList (removeHighlights (classes c)) e.
Proof.
  intros HS. destruct (highlightText_outcome c S HS) as (st & I & ->).
  eexists. split_and!; [done.. |]. intros e. cbn [classes].
  rewrite (ScanInv_isHighlight _ _ (removeHighlights_clear (classes c)) _ _ e I).
  apply (inv_dom _ _ _ _ I).
Qed.

End Locate.

(** * The viewer's locate operation *)

Section LocateClaims.
Import DOM PDFViewer.
Context {natives : JS.Natives}.

(** C1. For a non-empty search string [S], [highlightText] returns
    [{found: true}] exactly when some single text node of some text layer
    contains [S], letter case apart.  In particular, when no single node
    contains [S] the result is [{found: false}], whatever the fragments
    spell when read one after the other. *)
Theorem highlightText_found_iff_node_contains (c : Container) (S : string) :
  S ≠ "" →
  (found (result (highlightText (Some c) (Some S))) = true ↔
     ∃ layer node, layer ∈ textLayers c ∧ node ∈ layer ∧
       containsIgnoringCase (nodeValue node) S)
  ∧ ((∀ layer node, layer ∈ textLayers c → node ∈ layer →
        ¬ containsIgnoringCase (nodeValue node) S) →
     found (result (highlightText (Some c) (Some S))) = false).
Proof.
  intros HS. destruct (highlightText_outcome c S HS) as (st & I & ->). cbn [result found].
  rewrite (inv_found _ _ _ _ I).
  assert (Hiff : existsb (hit (JS.toLowerCase S)) (concat (textLayers c)) = true ↔
                 ∃ layer node, layer ∈ textLayers c ∧ node ∈ layer ∧
                   containsIgnoringCase (nodeValue node) S).
  { rewrite (existsb_hit S _ HS). split.
    - intros (n & (layer & Hl & Hn)%elem_of_concat & Hc). eauto.
    - intros (layer & n & Hl & Hn & Hc). exists n. split; [| done].
      apply elem_of_concat. eauto. }
  split; [done |]. intros Hnone. apply not_true_is_false. rewrite Hiff.
  intros (layer & n & Hl & Hn & Hc). by apply (Hnone layer n).
Qed.

(** C2. After a call with a non-empty [S], the elements carrying
    [highlighted-text] are exactly those that hold a text node containing
    [S]: the parent of every matching node is marked, an element is marked
    only if it holds a matching node, [classList.add] is called once per
    marked element (so the token stands once in its class list, next to
    [bg-yellow-300]), an element that was highlighted before and holds no
    matching node carries neither [highlighted-text] nor [bg-yellow-300]
    any more, and when no node matches no element is marked. *)
Theorem highlightText_marks_exactly_matches (c : Container) (S : string) :
  S ≠ "" →
  ∃ c', container (highlightText (Some c) (Some S)) = Some c' ∧
    textLayers c' = textLayers c ∧
    (∀ layer node, layer ∈ textLayers c → node ∈ layer →
       containsIgnoringCase (nodeValue node) S →
       isHighlight (classes c') (parentNode node) = true) ∧
    (∀ e, isHighlight (classes c') e = true ↔ holdsMatch c S e) ∧
    NoDup (marks (highlightText (Some c) (Some S))) ∧
    (∀ e, e ∈ marks (highlightText (Some c) (Some S)) ↔ isHighlight (classes c') e = true) ∧
    (∀ e, isHighlight (classes c') e = true →
       occurrences highlighted_text (classList (classes c') e) = 1 ∧
       contains (classList (classes c') e) bg_yellow_300 = true) ∧
    (∀ e, isHighlight (classes c) e = true → ¬ holdsMatch c S e →
       contains (classList (classes c') e) highlighted_text = false ∧
       contains (classList (classes c') e) bg_yellow_300 = false) ∧
    ((∀ layer node, layer ∈ textLayers c → node ∈ layer →
        ¬ containsIgnoringCase (nodeValue node) S) →
     marks (highlightText (Some c) (Some S)) = [] ∧
     ∀ e, isHighlight (classes c') e = false).
Proof.
  intros HS. destruct (highlightText_outcome c S HS) as (st & I & ->).
  eexists. split; [reflexivity |]. cbn [classes textLayers marks].
  assert (Hhl : ∀ e, isHighlight (dom st) e =
                      existsb (hitAt (JS.toLowerCase S) e) (concat (textLayers c))).
  { intros e. apply (ScanInv_isHighlight _ _ (removeHighlights_clear (classes c)) _ _ e I). }
  assert (Hmark : ∀ e, isHighlight (dom st) e = true ↔ holdsMatch c S e).
  { intros e. by rewrite Hhl, existsb_hitAt. }
  split_and!; [done | | done | apply (inv_nodup _ _ _ _ I) | | | |].
  - intros layer node Hl Hn Hc. apply Hmark. by exists layer, node.
  - intros e. by rewrite (inv_added _ _ _ _ I), Hhl.
  - intros e He. rewrite (inv_dom _ _ _ _ I). rewrite Hhl in He. rewrite He.
    pose proof (removeHighlights_clear (classes c) e) as Hc.
    unfold isHighlight in Hc. apply contains_false in Hc. split.
    + unfold add. cbn [fold_left]. rewrite !occurrences_add1.
      rewrite (occurrences_absent _ _ Hc).
      rewrite bool_decide_eq_true_2 by done.
      rewrite bool_decide_eq_false_2; [done |]. by intros [? _].
    + apply contains_true, elem_of_add. right. right. left.
  - intros e Hbefore Hno. unfold isHighlight in Hbefore.
    assert (Hafter : isHighlight (dom st) e = false).
    { apply not_true_is_false. by rewrite Hmark. }
    rewrite Hhl in Hafter.
    rewrite (inv_dom _ _ _ _ I), Hafter, classList_removeHighlights, Hbefore.
    split; apply contains_false; rewrite elem_of_remove; intros [_ Hn]; apply Hn.
    + left.
    + right. left.
  - intros Hnone.
    assert (Hno : ∀ e, isHighlight (dom st) e = false).
    { intros e. apply not_true_is_false. rewrite Hmark.
      intros (layer & node & Hl & Hn & _ & Hc). by apply (Hnone layer node). }
    split; [| done]. apply elem_of_nil_inv. intros e.
    rewrite (inv_added _ _ _ _ I), <- Hhl, Hno. done.
Qed.

(** C3. A call with a non-empty string starts its scan on a DOM without
    any highlight: [removeHighlights] takes both [highlighted-text] and
    [bg-yellow-300] off every element that carries [highlighted-text],
    and the outcome is that of the same call on the cleared container.
    So after [highlightText(S1); highlightText(S2)] the highlighted
    elements are those holding a match of [S2], and an element
    highlighted by the first call that holds no match of [S2] carries
    neither of the two classes any more. *)
Theorem highlightText_resets_highlights (c : Container) (S1 : option string) (S2 : string) :
  S2 ≠ "" →
  (∀ e, isHighlight (removeHighlights (classes c)) e = false) ∧
  (∀ e, isHighlight (classes c) e = true →
     contains (classList (removeHighlights (classes c)) e) bg_yellow_300 = false) ∧
  highlightText (Some c) (Some S2) =
    highlightText
      (Some {| classes := removeHighlights (classes c); textLayers := textLayers c |})
      (Some S2) ∧
  ∃ c1 c2,
    container (highlightText (Some c) S1) = Some c1 ∧
    container (highlightText (Some c1) (Some S2)) = Some c2 ∧
    (∀ e, isHighlight (classes c2) e = true ↔ holdsMatch c S2 e) ∧
    (∀ e, isHighlight (classes c1) e = true → ¬ holdsMatch c S2 e →
          isHighlight (classes c2) e = false ∧
          contains (classList (classes c2) e) bg_yellow_300 = false).
Proof.
  intros HS. split; [apply removeHighlights_clear |]. split.
  { intros e He. unfold isHighlight in He. rewrite classList_removeHighlights, He.
    apply contains_false. rewrite elem_of_remove. intros [_ Hn]. apply Hn. right. left. }
  split.
  { unfold highlightText. destruct S2; [done |]. cbn [JS.truthy negb classes textLayers].
    by rewrite removeHighlights_idemp. }
  assert (H1 : ∃ c1, container (highlightText (Some c) S1) = Some c1 ∧
                     textLayers c1 = textLayers c).
  { unfold highlightText. destruct S1 as [s1|]; [| by exists c].
    destruct (JS.truthy s1); [| by exists c]. eexists. split; reflexivity. }
  destruct H1 as (c1 & Hc1 & Hl1).
  destruct (highlightText_classList c1 S2 HS) as (c2 & Hc2 & _ & Hcl).
  destruct (highlightText_highlighted c1 S2 HS) as (c2' & Hc2' & _ & Hiff).
  assert (c2' = c2) as -> by congruence.
  exists c1, c2. split_and!; [done.. | |].
  - intros e. rewrite Hiff. by apply holdsMatch_layers.
  - intros e Hbefore Hno.
    assert (Hafter : isHighlight (classes c2) e = false).
    { apply not_true_is_false. rewrite Hiff. by rewrite (holdsMatch_layers c1 c). }
    split; [done |]. unfold isHighlight in Hbefore.
    rewrite Hcl, Hafter, classList_removeHighlights, Hbefore.
    apply contains_false. rewrite elem_of_remove. intros [_ Hn]. apply Hn. right. left.
Qed.

(** C4. For a non-empty [S], when the text nodes in scan order (page by
    page, each page in document order) have a first node containing [S],
    [highlightText] makes one [scrollIntoView] call: on that node's parent
    element, with [behavior: 'smooth'] and [block: 'center'].  When no node
    contains [S] it makes none. *)
Theorem highlightText_scrolls_to_first_match (c : Container) (S : string) :
  S ≠ "" →
  (∀ before node after,
     concat (textLayers c) = (before ++ node :: after)%list →
     containsIgnoringCase (nodeValue node) S →
     (∀ n, n ∈ before → ¬ containsIgnoringCase (nodeValue n) S) →
     scrolls (highlightText (Some c) (Some S)) =
       [{| target := parentNode node; behavior := "smooth"; block := "center" |}])
  ∧ ((∀ layer node, layer ∈ textLayers c → node ∈ layer →
        ¬ containsIgnoringCase (nodeValue node) S) →
     scrolls (highlightText (Some c) (Some S)) = []).
Proof.
  intros HS. destruct (highlightText_outcome c S HS) as (st & I & ->). cbn [scrolls].
  rewrite (inv_first _ _ _ _ I). split.
  - intros before node after Hsplit Hc Hbefore.
    assert (Hf : List.find (hit (JS.toLowerCase S)) (concat (textLayers c)) = Some node).
    { apply find_split. exists before, after. split_and!; [done | by apply hit_spec |].
      intros n Hn. apply not_true_is_false. rewrite (hit_spec S n HS). by apply Hbefore. }
    by rewrite Hf.
  - intros Hnone.
    destruct (List.find _ _) as [x|] eqn:Hf; [| done]. exfalso.
    apply find_split in Hf as (l1 & l2 & Hsplit & Hx & _).
    assert (Hin : x ∈ concat (textLayers c)).
    { rewrite Hsplit, elem_of_app. right. left. }
    apply elem_of_concat in Hin as (layer & Hl & Hn).
    apply (Hnone layer x Hl Hn). by apply hit_spec.
Qed.

(** C9. With an absent or an empty string [highlightText] returns
    [{found: false}] at once: the container is left as it was, highlights
    included, no [classList.add] and no [scrollIntoView] call is made. *)
Theorem highlightText_empty_is_noop (containerRef : option Container) :
  highlightText containerRef None =
    {| container := containerRef; marks := []; scrolls := [];
       result := {| found := false |} |} ∧
  highlightText containerRef (Some "") =
    {| container := containerRef; marks := []; scrolls := [];
       result := {| found := false |} |}.
Proof. by destruct containerRef. Qed.

End LocateClaims.

(** The locate operation on a sample, with the string methods of ASCII
    text. *)
Section LocateExamples.
Import DOM PDFViewer.
#[local] Existing Instance asciiNatives.

Lemma highlightText_found_iff_node_contains_witness :
  "increased" ≠ "" ∧
  containsIgnoringCase
    (visibleText [ {| nodeValue := "EBITDA incr"; parentNode := 1 |};
                   {| nodeValue := "eased to USD 2.3 bn"; parentNode := 2 |} ])
    "increased" ∧
  found (result (highlightText (Some sampleContainer) (Some "increased"))) = false ∧
  found (result (highlightText (Some sampleContainer) (Some "ebitda"))) = true.
Proof.
  split; [done |]. split; [by apply containsIgnoringCase_includes |]. split.
  - apply (highlightText_found_iff_node_contains sampleContainer "increased"); [done |].
    intros layer node Hl Hn Hc%containsIgnoringCase_includes.
    unfold sampleContainer in Hl. cbn [textLayers] in Hl.
    repeat (apply elem_of_cons in Hl as [-> | Hl];
            [repeat (apply elem_of_cons in Hn as [-> | Hn]; [by vm_compute in Hc |]);
             by apply elem_of_nil in Hn |]).
    by apply elem_of_nil in Hl.
  - apply (highlightText_found_iff_node_contains sampleContainer "ebitda"); [done |].
    eexists _, {| nodeValue := "EBITDA incr"; parentNode := 1 |}.
    split_and!; [left | left | by apply containsIgnoringCase_includes].
Defined.

Lemma highlightText_marks_exactly_matches_witness :
  "gain" ≠ "" ∧
  ∃ c', container (highlightText (Some sampleContainer) (Some "gain")) = Some c' ∧
    marks (highlightText (Some sampleContainer) (Some "gain")) = [3] ∧
    (∀ e, isHighlight (classes c') e = true ↔ holdsMatch sampleContainer "gain" e) ∧
    classList (classes sampleContainer) 4 = ["highlighted-text"; "bg-yellow-300"] ∧
    contains (classList (classes c') 4) highlighted_text = false ∧
    contains (classList (classes c') 4) bg_yellow_300 = false ∧
    classList (classes c') 3 = ["highlighted-text"; "bg-yellow-300"].
Proof.
  split; [done |].
  destruct (highlightText_marks_exactly_matches sampleContainer "gain")
    as (c' & Hc' & _ & _ & Hiff & _ & _ & _ & Hstale & _); [done |].
  assert (H4 : ¬ holdsMatch sampleContainer "gain" 4).
  { intros (layer & node & Hl & Hn & Hp & Hc%containsIgnoringCase_includes).
    unfold sampleContainer in Hl. cbn [textLayers] in Hl.
    repeat (apply elem_of_cons in Hl as [-> | Hl];
            [repeat (apply elem_of_cons in Hn as [-> | Hn];
                     [by (vm_compute in Hc) || by (vm_compute in Hp) |]);
             by apply elem_of_nil in Hn |]).
    by apply elem_of_nil in Hl. }
  destruct (Hstale 4 ltac:(by vm_compute) H4) as [Hhl Hbg].
  exists c'. split_and!; [done | by vm_compute | done | by vm_compute | done | done |].
  vm_compute in Hc'. injection Hc' as <-. by vm_compute.
Defined.

Lemma highlightText_resets_highlights_witness :
  "gain" ≠ "" ∧
  ∃ c1 c2,
    container (highlightText (Some sampleContainer) (Some "ebitda")) = Some c1 ∧
    container (highlightText (Some c1) (Some "gain")) = Some c2 ∧
    classList (classes c1) 1 = ["highlighted-text"; "bg-yellow-300"] ∧
    isHighlight (classes c2) 1 = false ∧
    contains (classList (classes c2) 1) bg_yellow_300 = false ∧
    isHighlight (classes c2) 3 = true.
Proof.
  split; [done |].
  destruct (highlightText_resets_highlights sampleContainer (Some "ebitda") "gain")
    as (_ & _ & _ & c1 & c2 & Hc1 & Hc2 & _ & Hgone); [done |].
  assert (H1 : ¬ holdsMatch sampleContainer "gain" 1).
  { intros (layer & node & Hl & Hn & Hp & Hc%containsIgnoringCase_includes).
    unfold sampleContainer in Hl. cbn [textLayers] in Hl.
    repeat (apply elem_of_cons in Hl as [-> | Hl];
            [repeat (apply elem_of_cons in Hn as [-> | Hn];
                     [by (vm_compute in Hc) || by (vm_compute in Hp) |]);
             by apply elem_of_nil in Hn |]).
    by apply elem_of_nil in Hl. }
  assert (Hwas : isHighlight (classes c1) 1 = true).
  { vm_compute in Hc1. injection Hc1 as <-. by vm_compute. }
  destruct (Hgone 1 Hwas H1) as [Hhl Hbg].
  exists c1, c2. split_and!; [done.. | | done | done |].
  - vm_compute in Hc1. injection Hc1 as <-. by vm_compute.
  - vm_compute in Hc1. injection Hc1 as <-.
    vm_compute in Hc2. injection Hc2 as <-. by vm_compute.
Defined.

Lemma highlightText_scrolls_to_first_match_witness :
  "MARGIN" ≠ "" ∧
  scrolls (highlightText (Some sampleContainer) (Some "MARGIN")) =
    [{| target := 4; behavior := "smooth"; block := "center" |}].
Proof.
  split; [done |].
  apply (proj1 (highlightText_scrolls_to_first_match sampleContainer "MARGIN" ltac:(done))
           [ {| nodeValue := "EBITDA incr"; parentNode := 1 |};
             {| nodeValue := "eased to USD 2.3 bn"; parentNode := 2 |};
             {| nodeValue := "Gain on sale"; parentNode := 3 |} ]
           {| nodeValue := "Ebitda margin"; parentNode := 4 |}
           [ {| nodeValue := "adjusted EBITDA"; parentNode := 5 |} ]).
  - reflexivity.
  - by apply containsIgnoringCase_includes.
  - intros n Hn Hc%containsIgnoringCase_includes.
    repeat (apply elem_of_cons in Hn as [-> | Hn]; [by vm_compute in Hc |]).
    by apply elem_of_nil in Hn.
Defined.

End LocateExamples.

(** * Zoom *)

Section Zoom.
Import PDFViewer.

Lemma among_spec (l : list float) (x : float) : among l x = true ↔ x ∈ l.
Proof.
  unfold among. rewrite existsb_elem_of. split.
  - intros (y & Hy & ->%FloatAxioms.Leibniz.eqb_spec). done.
  - intros Hx. exists x. split; [done |]. by apply FloatAxioms.Leibniz.eqb_spec.
Qed.

Lemma forallb_elem_of {A} (f : A → bool) (l : list A) (x : A) :
  forallb f l = true → x ∈ l → f x = true.
Proof. rewrite forallb_forall. intros H Hx. by apply H, list_elem_of_In. Qed.

Lemma scales_closed :
  forallb (λ s, among scales (zoomIn s) && among scales (zoomOut s)) scales = true.
Proof. by vm_compute. Qed.

Lemma reachable_scales (s : float) : reachable s → s ∈ scales.
Proof.
  induction 1 as [| s _ IH | s _ IH].
  - apply among_spec. by vm_compute.
  - apply among_spec.
    by apply (forallb_elem_of _ _ _ scales_closed) in IH as [? _]%andb_true_iff.
  - apply among_spec.
    by apply (forallb_elem_of _ _ _ scales_closed) in IH as [_ ?]%andb_true_iff.
Qed.

Lemma scales_clamped :
  forallb (λ s,
    PrimFloat.Leibniz.eqb (zoomIn s) (clamp (plus s lit_0_1) lit_0_5 lit_2_0) &&
    PrimFloat.Leibniz.eqb (zoomOut s) (clamp (minus s lit_0_1) lit_0_5 lit_2_0) &&
    num_le lit_0_5 s && num_le s lit_2_0) scales = true.
Proof. by vm_compute. Qed.

(** C7, the claim as it stands fails: six zoom-in steps from 1.0 do not
    give 2.0, on doubles or in exact arithmetic. *)
Lemma six_zoomIn_steps_do_not_reach_two :
  Nat.iter 6 zoomIn (initialScale (T := float)) ≠ 2.0%float ∧
  ¬ (Nat.iter 6 zoomIn (initialScale (T := Q)) == 2)%Q.
Proof.
  split.
  - intros H. apply (f_equal (λ x, PrimFloat.eqb x 2.0)) in H. by vm_compute in H.
  - by vm_compute.
Qed.

(** C7, amended.  From the initial scale 1.0, six zoom-in steps give 1.6
    (the double 1.6000000000000005), below the upper bound and uncut; the
    bound 2.0 is reached with the tenth step, which is cut back to it.  Six
    zoom-out steps give 0.5: the sixth would go to 0.4 and is raised to the
    lower bound. *)
Theorem six_zoom_steps_from_initial :
  (Nat.iter 6 zoomIn (initialScale (T := float)) = 1.6000000000000005%float ∧
   Nat.iter 10 zoomIn (initialScale (T := float)) = 2.0%float ∧
   plus (Nat.iter 9 zoomIn (initialScale (T := float))) lit_0_1 = 2.000000000000001%float ∧
   Nat.iter 6 zoomOut (initialScale (T := float)) = 0.5%float ∧
   minus (Nat.iter 5 zoomOut (initialScale (T := float))) lit_0_1 = 0.40000000000000013%float)
  ∧
  ((Nat.iter 6 zoomIn (initialScale (T := Q)) == 16 # 10)%Q ∧
   (Nat.iter 10 zoomIn (initialScale (T := Q)) == 2)%Q ∧
   (plus (Nat.iter 9 zoomIn (initialScale (T := Q))) lit_0_1 == 2)%Q ∧
   (Nat.iter 6 zoomOut (initialScale (T := Q)) == 1 # 2)%Q ∧
   (minus (Nat.iter 5 zoomOut (initialScale (T := Q))) lit_0_1 == 4 # 10)%Q).
Proof. split; split_and!; by vm_compute. Qed.

(** C8.  On every value the scale can take, [zoomIn] is
    [clamp(scale + 0.1, 0.5, 2.0)] and [zoomOut] is
    [clamp(scale - 0.1, 0.5, 2.0)], and the value lies in [[0.5, 2.0]]:
    shown on doubles for the scales reachable from the initial 1.0, and in
    exact arithmetic for every scale of [[0.5, 2.0]], which both steps map
    into [[0.5, 2.0]] again. *)
Theorem zoom_steps_are_clamped :
  (∀ s : float, reachable s →
     zoomIn s = clamp (plus s lit_0_1) lit_0_5 lit_2_0 ∧
     zoomOut s = clamp (minus s lit_0_1) lit_0_5 lit_2_0 ∧
     num_le lit_0_5 s = true ∧ num_le s lit_2_0 = true)
  ∧
  (∀ s : Q, (lit_0_5 <= s)%Q → (s <= lit_2_0)%Q →
     (zoomIn s == clamp (plus s lit_0_1) lit_0_5 lit_2_0)%Q ∧
     (zoomOut s == clamp (minus s lit_0_1) lit_0_5 lit_2_0)%Q ∧
     (lit_0_5 <= zoomIn s)%Q ∧ (zoomIn s <= lit_2_0)%Q ∧
     (lit_0_5 <= zoomOut s)%Q ∧ (zoomOut s <= lit_2_0)%Q).
Proof.
  split.
  - intros s Hs%reachable_scales.
    apply (forallb_elem_of _ _ _ scales_clamped) in Hs.
    rewrite !andb_true_iff, !FloatAxioms.Leibniz.eqb_spec in Hs. tauto.
  - intros s Hlo Hhi. unfold zoomIn, zoomOut, clamp. cbn in *.
    assert (H1 : (1 # 2 <= Qmin (s + (1 # 10)) 2)%Q) by (apply Q.min_glb; lra).
    assert (H2 : (Qmax (s - (1 # 10)) (1 # 2) <= 2)%Q) by (apply Q.max_lub; lra).
    split_and!.
    + symmetry. by apply Q.max_r.
    + rewrite (Q.min_l (s - (1 # 10)) 2) by lra. apply Q.max_comm.
    + done.
    + apply Q.le_min_r.
    + apply Q.le_max_r.
    + done.
Qed.

Lemma zoom_steps_are_clamped_witness :
  reachable (zoomOut (zoomIn (zoomIn (initialScale (T := float))))) ∧
  zoomIn (zoomOut (zoomIn (zoomIn (initialScale (T := float))))) = 1.2000000000000002%float ∧
  (lit_0_5 <= 19 # 10)%Q ∧ (19 # 10 <= lit_2_0)%Q ∧
  (zoomIn (19 # 10) == clamp (plus (19 # 10) lit_0_1) lit_0_5 lit_2_0)%Q.
Proof.
  assert (Hr : reachable (zoomOut (zoomIn (zoomIn (initialScale (T := float)))))).
  { apply reach_zoomOut, reach_zoomIn, reach_zoomIn, reach_initial. }
  split; [done |]. split.
  - destruct (proj1 zoom_steps_are_clamped _ Hr) as (-> & _). by vm_compute.
  - split; [by vm_compute |]. split; [by vm_compute |].
    apply (proj2 zoom_steps_are_clamped (19 # 10)); by vm_compute.
Defined.

End Zoom.

(** * Citation clicks *)

Section CitationClick.
Import DOM PDFViewer.
Context {natives : JS.Natives}.

(** C5, amended.  With the viewer mounted, a click calls [highlightText]
    with the citation's text.  When the result is [{found: false}], one
    [alert] is shown, whose message holds the citation's text and its page
    hint; when it is [{found: true}], none is shown.  In src/App.tsx the
    page hint appears in that message only: a successful click does the
    same whatever the hint.  The second App.tsx does the same to the
    browser and, on success, also sets [currentPage] to the hint. *)
Theorem handleCitationClick_locates_and_alerts
    (citation : Citation.t) (b : App.Browser) (viewer : App.Viewer) (current : Z) :
  App.pdfViewerRef b = Some viewer →
  ∃ o, o = highlightText (App.containerRef viewer) (Some (Citation.text citation)) ∧
    App.pdfViewerRef (App.handleCitationClick citation b) =
      Some {| App.containerRef := container o |} ∧
    App.scrollCalls (App.handleCitationClick citation b) = (App.scrollCalls b ++ scrolls o)%list ∧
    (found (result o) = false →
       App.alerts (App.handleCitationClick citation b) =
         (App.alerts b ++ [App.notFoundMessage citation])%list) ∧
    (found (result o) = true →
       App.alerts (App.handleCitationClick citation b) = App.alerts b) ∧
    (∃ pre mid post,
       App.notFoundMessage citation =
         pre ++ Citation.text citation ++ mid ++ pretty (Citation.page citation) ++ post) ∧
    (found (result o) = true →
       ∀ page', App.handleCitationClick (withPage citation page') b =
                App.handleCitationClick citation b) ∧
    App2.browser (App2.handleCitationClick citation
                    {| App2.browser := b; App2.currentPage := current |}) =
      App.handleCitationClick citation b ∧
    App2.currentPage (App2.handleCitationClick citation
                        {| App2.browser := b; App2.currentPage := current |}) =
      if found (result o) then Citation.page citation else current.
Proof.
  intros Hv. eexists. split; [reflexivity |].
  unfold App2.handleCitationClick, App.handleCitationClick, App.callHighlightText.
  cbn [App2.browser App2.currentPage withPage Citation.text Citation.page]. rewrite Hv.
  destruct (found (result (highlightText _ _))) eqn:Hf; cbn [negb App.alert
    App.pdfViewerRef App.scrollCalls App.alerts App2.browser App2.currentPage].
  - split_and!; try done.
    exists ("The reference " ++ App.quote), (App.quote ++ " could not be found on page "), ".".
    unfold App.notFoundMessage. by rewrite !append_assoc.
  - split_and!; try done.
    exists ("The reference " ++ App.quote), (App.quote ++ " could not be found on page "), ".".
    unfold App.notFoundMessage. by rewrite !append_assoc.
Qed.

End CitationClick.

(** Clicks on the sample. *)
Section CitationClickExamples.
Import DOM PDFViewer.
#[local] Existing Instance asciiNatives.

(** C5, the claim as it stands fails on the second App.tsx: a click on a
    citation whose text is found stores the page hint as the current page,
    so the outcome of a successful click depends on the hint. *)
Lemma handleCitationClick_stores_page_on_success :
  let citation := {| Citation.id := 2; Citation.text := "EBITDA incr"; Citation.page := 5 |} in
  let s := {| App2.browser := sampleBrowser; App2.currentPage := 1 |} in
  found (result (highlightText (Some sampleContainer) (Some (Citation.text citation)))) = true ∧
  App.alerts (App2.browser (App2.handleCitationClick citation s)) = [] ∧
  App2.currentPage s = 1%Z ∧
  App2.currentPage (App2.handleCitationClick citation s) = 5%Z ∧
  App2.handleCitationClick (withPage citation 6) s ≠ App2.handleCitationClick citation s.
Proof.
  cbv zeta. split_and!; [by vm_compute.. |].
  intros H. apply (f_equal App2.currentPage) in H. by vm_compute in H.
Qed.

Lemma handleCitationClick_locates_and_alerts_witness :
  App.pdfViewerRef sampleBrowser = Some {| App.containerRef := Some sampleContainer |} ∧
  App.alerts (App.handleCitationClick
                {| Citation.id := 1; Citation.text := "nonexistent phrase xyz"; Citation.page := 5 |}
                sampleBrowser) =
    [ "The reference " ++ App.quote ++ "nonexistent phrase xyz" ++ App.quote ++
      " could not be found on page 5." ] ∧
  App.alerts (App.handleCitationClick
                {| Citation.id := 2; Citation.text := "USD 2.3 bn"; Citation.page := 5 |}
                sampleBrowser) = [].
Proof.
  split; [done |]. split.
  - destruct (handleCitationClick_locates_and_alerts
                {| Citation.id := 1; Citation.text := "nonexistent phrase xyz"; Citation.page := 5 |}
                sampleBrowser {| App.containerRef := Some sampleContainer |} 1 eq_refl)
      as (o & -> & _ & _ & Hnot & _).
    rewrite Hnot; by vm_compute.
  - destruct (handleCitationClick_locates_and_alerts
                {| Citation.id := 2; Citation.text := "USD 2.3 bn"; Citation.page := 5 |}
                sampleBrowser {| App.containerRef := Some sampleContainer |} 1 eq_refl)
      as (o & -> & _ & _ & _ & Hfound & _).
    rewrite Hfound; by vm_compute.
Defined.

End CitationClickExamples.

(** * Sending a message *)

Section Send.
Context {natives : JS.Natives}.

Lemma blank_empty : blank "".
Proof. apply JS.trim_of_empty. Qed.

Lemma truthy_trim (s : string) : JS.truthy (JS.trim s) = false ↔ blank s.
Proof. unfold blank. destruct (JS.trim s); simpl; split; done. Qed.

(** C10.  Submitting an input that is empty, or of which trimming leaves
    nothing because it is all white space, changes nothing: no message is
    appended, no timer is set, the input stays.  Any other input appends
    one user message whose content is the input as typed, clears the input
    and sets one timer of 1000 ms for the sample response. *)
Theorem handleSendMessage_skips_blank_input (now : Z) (p : App.Panel) :
  (App.inputMessage p = "" → App.handleSendMessage now p = p) ∧
  (blank (App.inputMessage p) → App.handleSendMessage now p = p) ∧
  (¬ blank (App.inputMessage p) →
     ∃ m, App.messages (App.handleSendMessage now p) = (App.messages p ++ [m])%list ∧
       Message.content m = App.inputMessage p ∧
       Message.isUser m = true ∧
       App.inputMessage (App.handleSendMessage now p) = "" ∧
       App.timeouts (App.handleSendMessage now p) =
         (App.timeouts p ++
            [{| App.callback := App.appendSampleResponse; App.delay := 1000 |}])%list) ∧
  (length (App.messages (App.handleSendMessage now p)) ≠ length (App.messages p) ↔
     ¬ blank (App.inputMessage p)).
Proof.
  unfold App.handleSendMessage.
  destruct (JS.truthy (JS.trim (App.inputMessage p))) eqn:Ht; cbn [negb].
  - assert (Hb : ¬ blank (App.inputMessage p)).
    { intros Hb%truthy_trim. congruence. }
    split_and!.
    + intros Hempty. rewrite Hempty in Hb. by destruct (Hb blank_empty).
    + done.
    + intros _. eexists. by split_and!.
    + cbn [App.messages]. rewrite length_app. simpl. split; [done | lia].
  - apply truthy_trim in Ht. split_and!; [done.. |]. split; [done | tauto].
Qed.

End Send.

(** Sending on ASCII input. *)
Section SendExamples.
#[local] Existing Instance asciiNatives.

Lemma handleSendMessage_skips_blank_input_witness :
  let p := {| App.messages := []; App.inputMessage := "   "; App.timeouts := [] |} in
  let q := {| App.messages := []; App.inputMessage := " hi "; App.timeouts := [] |} in
  blank (App.inputMessage p) ∧ App.handleSendMessage 1700000000000 p = p ∧
  ¬ blank (App.inputMessage q) ∧
  Message.content <$> App.messages (App.handleSendMessage 1700000000000 q) = [" hi "].
Proof.
  cbv zeta. split; [compute_done |]. split.
  - apply (proj1 (proj2 (handleSendMessage_skips_blank_input 1700000000000
             {| App.messages := []; App.inputMessage := "   "; App.timeouts := [] |}))).
    cbn [App.inputMessage]. compute_done.
  - assert (Hq : ¬ blank " hi ") by compute_done.
    split; [done |].
    destruct (proj1 (proj2 (proj2 (handleSendMessage_skips_blank_input 1700000000000
                {| App.messages := []; App.inputMessage := " hi "; App.timeouts := [] |}))) Hq)
      as (m & -> & Hm & _).
    simpl. by rewrite Hm.
Defined.

End SendExamples.

(** * Citation markers *)

Section Markers.

#[local] Arguments Pattern.marker : simpl never.

Lemma joined_app (l1 l2 : list string) : joined (l1 ++ l2) = joined l1 ++ joined l2.
Proof.
  induction l1 as [|x l1 IH]; simpl; [done |]. by rewrite IH, append_assoc.
Qed.

Lemma spanDigits_app (ds rest : string) :
  allDigits ds →
  (∀ c r, rest = String c r → JS.isDigit c = false) →
  JS.spanDigits (ds ++ rest) = (ds, rest).
Proof.
  unfold allDigits. intros Hds Hrest. induction ds as [|d ds IH]; simpl in *.
  - destruct rest as [|c r]; [done |]. simpl. by rewrite (Hrest c r).
  - apply Forall_cons in Hds as [Hd Hds]. by rewrite Hd, IH.
Qed.

Lemma spanDigits_spec (s ds rest : string) :
  JS.spanDigits s = (ds, rest) → s = ds ++ rest ∧ allDigits ds.
Proof.
  unfold allDigits. revert ds rest. induction s as [|c s IH]; intros ds rest; simpl.
  - intros [= <- <-]. split; [done | constructor].
  - destruct (JS.isDigit c) eqn:Hc.
    + destruct (JS.spanDigits s) as [ds' rest']. intros [= <- <-].
      destruct (IH ds' rest' eq_refl) as [-> Hds]. split; [done |].
      simpl. by constructor.
    + intros [= <- <-]. split; [done | constructor].
Qed.

Lemma marker_append (ds post : string) :
  Pattern.marker ds ++ post = String "[" (ds ++ String "]" post).
Proof. unfold Pattern.marker. simpl. by rewrite append_assoc. Qed.

(** The pattern matches where a marker stands. *)
Lemma matchAt_marker (ds post : string) :
  allDigits ds → ds ≠ "" →
  Pattern.matchAt (Pattern.marker ds ++ post) = Some (ds, post).
Proof.
  intros Hds Hne. rewrite marker_append. unfold Pattern.matchAt.
  rewrite Ascii.eqb_refl, spanDigits_app; [| done | by intros c r [= <- _]].
  apply truthy_true in Hne. by rewrite Hne, Ascii.eqb_refl.
Qed.

(** ... and only there. *)
Lemma matchAt_Some (s ds rest : string) :
  Pattern.matchAt s = Some (ds, rest) →
  s = Pattern.marker ds ++ rest ∧ allDigits ds ∧ ds ≠ "".
Proof.
  unfold Pattern.matchAt. destruct s as [|c s1]; [done |].
  destruct (Ascii.eqb c "[") eqn:Hc; [| done]. apply Ascii.eqb_eq in Hc as ->.
  destruct (JS.spanDigits s1) as [ds' rest'] eqn:Hspan.
  destruct rest' as [|c' rest']; [done |].
  destruct (JS.truthy ds') eqn:Ht; [| done].
  destruct (Ascii.eqb c' "]") eqn:Hc'; [| done]. apply Ascii.eqb_eq in Hc' as ->.
  intros [= <- <-]. apply spanDigits_spec in Hspan as [-> Hds].
  rewrite marker_append. by apply truthy_true in Ht.
Qed.

Lemma matchAt_shorter (s ds rest : string) :
  Pattern.matchAt s = Some (ds, rest) → String.length rest < String.length s.
Proof.
  intros (-> & _ & _)%matchAt_Some. rewrite marker_append. simpl.
  rewrite length_append. simpl. lia.
Qed.

(** A marker cannot start inside a match: what stands there are digits
    and the closing bracket. *)
Lemma marker_after_match (ds x y rest : string) :
  allDigits ds →
  x ++ String "[" y = ds ++ String "]" rest →
  ∃ x', x = ds ++ String "]" x' ∧ rest = x' ++ String "[" y.
Proof.
  unfold allDigits. intros Hds. revert x. induction ds as [|d ds IH]; intros x H; simpl in *.
  - destruct x as [|c x]; simpl in H; [done |]. injection H as -> <-. by exists x.
  - apply Forall_cons in Hds as [Hd Hds].
    destruct x as [|c x]; simpl in H.
    + injection H as <- _. done.
    + injection H as -> H. destruct (IH Hds x H) as (x' & -> & ->). by exists x'.
Qed.

(** [split] finds every marker of the string: it is one of the pieces,
    and the pieces before it spell what stands before it. *)
Lemma splitLoop_finds_marker (turns : nat) (s piece pre ds post : string) :
  String.length s < turns →
  allDigits ds → ds ≠ "" →
  s = pre ++ Pattern.marker ds ++ post →
  ∃ before after,
    Pattern.splitLoop turns s piece = (before ++ Pattern.marker ds :: after)%list ∧
    joined before = piece ++ pre.
Proof.
  intros Hturns Hds Hne. revert s piece pre Hturns.
  induction turns as [|turns IH]; intros s piece pre Hturns Hs; [lia |].
  cbn [Pattern.splitLoop].
  destruct (Pattern.matchAt s) as [[ds' rest]|] eqn:Hm.
  - pose proof (matchAt_shorter _ _ _ Hm) as Hshort.
    destruct pre as [|c pre].
    + rewrite append_nil_l in Hs. rewrite Hs, matchAt_marker in Hm by done.
      injection Hm as <- <-.
      exists [piece], (Pattern.splitLoop turns post ""). split; [done |].
      cbn [joined foldr]. by rewrite !append_nil_r.
    + apply matchAt_Some in Hm as (Hs' & Hds' & _).
      rewrite Hs', !marker_append, append_cons in Hs. injection Hs as <- Hs. symmetry in Hs.
      apply marker_after_match in Hs as (x' & -> & Hrest); [| done].
      destruct (IH rest "" x') as (before & after & Heq & Hj).
      * lia.
      * by rewrite marker_append.
      * exists (piece :: Pattern.marker ds' :: before), after. rewrite Heq. split; [done |].
        cbn [joined foldr]. fold (joined before). rewrite Hj, append_nil_l.
        by rewrite marker_append.
  - destruct pre as [|c pre].
    + rewrite append_nil_l in Hs. by rewrite Hs, matchAt_marker in Hm.
    + rewrite append_cons in Hs. subst s. cbn [String.length] in Hturns.
      destruct (IH (pre ++ Pattern.marker ds ++ post) (piece ++ String c "") pre)
        as (before & after & Heq & Hj); [lia | done |].
      exists before, after. split; [done |].
      rewrite Hj, append_assoc. by rewrite append_cons, append_nil_l.
Qed.

(** The pieces of [split] spell the string. *)
Lemma splitLoop_joined (turns : nat) (s piece : string) :
  joined (Pattern.splitLoop turns s piece) = piece ++ s.
Proof.
  revert s piece. induction turns as [|turns IH]; intros s piece; cbn [Pattern.splitLoop].
  - cbn [joined foldr]. by rewrite append_nil_r.
  - destruct (Pattern.matchAt s) as [[ds rest]|] eqn:Hm.
    + apply matchAt_Some in Hm as (-> & _ & _). cbn [joined foldr].
      fold (joined (Pattern.splitLoop turns rest "")). by rewrite IH, append_nil_l.
    + destruct s as [|c s]; [cbn [joined foldr]; by rewrite append_nil_r |].
      by rewrite IH, append_assoc, append_cons, append_nil_l.
Qed.

Lemma formatPart_text (citations : list Citation.t) (index : nat) (part : string) :
  childText (App.formatPart citations index part) = part.
Proof.
  unfold App.formatPart. destruct (Pattern.firstMatch part) as [digits|]; [| done].
  cbv zeta. by destruct (find _ citations).
Qed.

Lemma childText_imap (f : nat → string → App.Child) (parts : list string) :
  (∀ i part, childText (f i part) = part) →
  childText <$> imap f parts = parts.
Proof.
  revert f. induction parts as [|part parts IH]; intros f Hf; [done |].
  rewrite imap_cons, fmap_cons, Hf. f_equal. apply IH. intros i p. apply Hf.
Qed.

(** What the callback of [map] makes of a marker. *)
Lemma formatPart_marker (citations : list Citation.t) (index : nat) (ds : string) :
  allDigits ds → ds ≠ "" →
  App.formatPart citations index (Pattern.marker ds) =
  match find (λ c, Citation.id c =? JS.parseInt ds)%float citations with
  | Some citation => App.span index citation (Pattern.marker ds)
  | None => App.text (Pattern.marker ds)
  end.
Proof.
  intros Hds Hne. unfold App.formatPart.
  assert (Hm : Pattern.firstMatch (Pattern.marker ds) = Some ds).
  { pose proof (matchAt_marker ds "" Hds Hne) as Hm. rewrite append_nil_r in Hm.
    destruct (Pattern.marker ds); cbn [Pattern.firstMatch]; by rewrite Hm. }
  by rewrite Hm.
Qed.

(** What [parseInt] reads from a run of digits: the Number value of the
    integer they spell. *)
Lemma parseInt_digits (ds : string) :
  allDigits ds → ds ≠ "" → JS.parseInt ds = JS.numberOf (JS.digitsValue 0 ds).
Proof.
  intros Hds Hne. unfold JS.parseInt.
  pose proof (spanDigits_app ds "" Hds) as Hspan. rewrite append_nil_r in Hspan.
  rewrite Hspan by done. by destruct ds.
Qed.

(** C6, the claim as it stands fails: the marker's integer is turned
    into a double before it is compared, so the marker
    [[9007199254740993]] is bound to the citation with id
    9007199254740992, an integer it does not equal. *)
Lemma formatMessageContent_rounds_marker_number :
  let citation := {| Citation.id := 9007199254740992; Citation.text := "Sample citation text";
                     Citation.page := 1 |} in
  App.formatMessageContent "[9007199254740993]" (Some [citation]) =
    App.children [ App.text ""; App.span 1 citation "[9007199254740993]"; App.text "" ] ∧
  "[9007199254740993]" = Pattern.marker "9007199254740993" ∧
  JS.digitsValue 0 "9007199254740993" = 9007199254740993%Z ∧
  integerOf (Citation.id citation) = Some 9007199254740992%Z.
Proof. cbv zeta. split_and!; by vm_compute. Qed.

(** C6, amended.  Without citations the content is rendered as it is,
    plain text.  With citations, wherever the content holds a marker, an
    opening bracket, one or more digits and a closing bracket, the
    rendering has a child of its own at that place, showing the marker.
    Let [n] be the number [parseInt] reads from the digits: the double
    nearest to the integer they spell.  If some citation of the list has
    an id strictly equal to [n], the child is the clickable span bound to
    the first such citation (to that citation, when it is the only one);
    if none has, it is the plain string.  The children spell the
    content. *)
Theorem formatMessageContent_resolves_markers :
  (∀ content,
     App.formatMessageContent content None = App.plain content ∧
     App.formatMessageContent content (Some []) = App.plain content)
  ∧
  (∀ (content : string) (citations : list Citation.t) (pre ds post : string),
     citations ≠ [] →
     allDigits ds → ds ≠ "" →
     content = pre ++ Pattern.marker ds ++ post →
     ∃ before child after,
       App.formatMessageContent content (Some citations) =
         App.children (before ++ child :: after) ∧
       joined (childText <$> (before ++ child :: after)%list) = content ∧
       joined (childText <$> before) = pre ∧
       childText child = Pattern.marker ds ∧
       JS.parseInt ds = JS.numberOf (JS.digitsValue 0 ds) ∧
       (∀ c, c ∈ citations → strictEquals (Citation.id c) (JS.parseInt ds) →
          ∃ c' l1 l2,
            child = App.span (length before) c' (Pattern.marker ds) ∧
            citations = (l1 ++ c' :: l2)%list ∧
            strictEquals (Citation.id c') (JS.parseInt ds) ∧
            (∀ x, x ∈ l1 → ¬ strictEquals (Citation.id x) (JS.parseInt ds)) ∧
            ((∀ x, x ∈ citations → strictEquals (Citation.id x) (JS.parseInt ds) → x = c) →
             c' = c)) ∧
       ((∀ c, c ∈ citations → ¬ strictEquals (Citation.id c) (JS.parseInt ds)) →
          child = App.text (Pattern.marker ds))).
Proof.
  split; [done |]. intros content citations pre ds post Hcs Hds Hne Hcontent.
  assert (Hfmt : App.formatMessageContent content (Some citations) =
                 App.children (imap (App.formatPart citations) (Pattern.split content))).
  { by destruct citations. }
  destruct (splitLoop_finds_marker (S (String.length content)) content "" pre ds post)
    as (before & after & Hsplit & Hj); [lia | done.. |].
  rewrite append_nil_l in Hj. fold (Pattern.split content) in Hsplit.
  assert (Htext : childText <$> imap (App.formatPart citations) (Pattern.split content) =
                  Pattern.split content).
  { apply childText_imap, formatPart_text. }
  rewrite Hfmt. rewrite Hsplit, imap_app, imap_cons in *.
  rewrite Nat.add_0_r, formatPart_marker in * by done.
  eexists _, _, _. split; [reflexivity |]. rewrite Htext.
  rewrite fmap_app, fmap_cons in Htext.
  apply app_inj_1 in Htext as [Hbefore _]; [| by rewrite length_fmap, length_imap].
  rewrite Hbefore, length_imap. unfold strictEquals. split_and!.
  - rewrite <- Hsplit. unfold Pattern.split. by rewrite splitLoop_joined.
  - done.
  - by destruct (find _ citations).
  - by apply parseInt_digits.
  - intros c Hc Hid. destruct (find _ citations) as [c'|] eqn:Hfind.
    + apply find_split in Hfind as (l1 & l2 & Hl & Heq & Hfirst).
      exists c', l1, l2. split_and!; [done.. | |].
      * intros x Hx. rewrite (Hfirst x Hx). done.
      * intros Honly. apply Honly; [| done]. rewrite Hl, elem_of_app. right. left.
    + apply find_none with (x := c) in Hfind; [| by apply list_elem_of_In].
      congruence.
  - intros Hnone. destruct (find _ citations) as [c'|] eqn:Hfind; [| done].
    apply find_some in Hfind as [Hin Heq]. apply list_elem_of_In in Hin.
    by destruct (Hnone c' Hin).
Qed.

Lemma formatMessageContent_resolves_markers_witness :
  let citations := [ {| Citation.id := 1; Citation.text := "results improved"; Citation.page := 3 |};
                     {| Citation.id := 2; Citation.text := "EBITDA increased"; Citation.page := 5 |} ] in
  citations ≠ [] ∧ allDigits "9" ∧ "9" ≠ "" ∧
  "growth [1][9][2]" = "growth [1]" ++ Pattern.marker "9" ++ "[2]" ∧
  (∃ before after,
     App.formatMessageContent "growth [1][9][2]" (Some citations) =
       App.children (before ++ App.text "[9]" :: after) ∧
     joined (childText <$> before) = "growth [1]") ∧
  App.formatMessageContent "growth [1][9][2]" (Some citations) =
    App.children
      [ App.text "growth ";
        App.span 1 {| Citation.id := 1; Citation.text := "results improved"; Citation.page := 3 |} "[1]";
        App.text "";
        App.text "[9]";
        App.text "";
        App.span 5 {| Citation.id := 2; Citation.text := "EBITDA increased"; Citation.page := 5 |} "[2]";
        App.text "" ].
Proof.
  cbv zeta. split_and!; [done | compute_done | done | done | | by vm_compute].
  destruct (proj2 formatMessageContent_resolves_markers "growth [1][9][2]"
              [ {| Citation.id := 1; Citation.text := "results improved"; Citation.page := 3 |};
                {| Citation.id := 2; Citation.text := "EBITDA increased"; Citation.page := 5 |} ]
              "growth [1]" "9" "[2]")
    as (before & child & after & Hfmt & _ & Hpre & _ & _ & _ & Hplain);
    [done | compute_done | done | done |].
  exists before, after. split; [| done]. rewrite Hfmt, Hplain; [done |].
  intros c Hc. unfold strictEquals.
  repeat (apply elem_of_cons in Hc as [-> | Hc]; [by vm_compute |]).
  by apply elem_of_nil in Hc.
Defined.

End Markers.

(** * More about [highlightText] *)

Section MoreLocate.
Import DOM PDFViewer.
Context {natives : JS.Natives}.

Global Instance containsIgnoringCase_dec (text S : string) :
  Decision (containsIgnoringCase text S).
Proof.
  refine (cast_if (decide (JS.includes (JS.toLowerCase text) (JS.toLowerCase S) = true)));
    by rewrite containsIgnoringCase_includes.
Defined.

Lemma remove_add_highlight (cl : list string) :
  remove [highlighted_text; bg_yellow_300] (add [highlighted_text; bg_yellow_300] cl) =
  remove [highlighted_text; bg_yellow_300] cl.
Proof.
  unfold add, add1, remove. cbn [fold_left].
  destruct (contains cl highlighted_text);
    destruct (contains _ bg_yellow_300); rewrite ?filter_app; cbn;
    rewrite ?app_nil_r; try done.
Qed.

Lemma remove_remove (ts cl : list string) : remove ts (remove ts cl) = remove ts cl.
Proof.
  unfold remove. induction cl as [|t cl IH]; [done |].
  destruct (decide (t ∉ ts)) as [H|H].
  - rewrite !filter_cons_True by done. by rewrite IH.
  - by rewrite filter_cons_False.
Qed.

(** X1.  A call with a non-empty string leaves the text layers as they
    are and touches no class but its two: on every element, the classes
    other than [highlighted-text] and [bg-yellow-300] are the same before
    and after, in the same order. *)
Theorem highlightText_keeps_other_classes (c : Container) (S : string) :
  S ≠ "" →
  ∃ c', container (highlightText (Some c) (Some S)) = Some c' ∧
    textLayers c' = textLayers c ∧
    ∀ e, remove [highlighted_text; bg_yellow_300] (classList (classes c') e) =
         remove [highlighted_text; bg_yellow_300] (classList (classes c) e).
Proof.
  intros HS. destruct (highlightText_classList c S HS) as (c' & Hc' & Hl & Hcl).
  exists c'. split_and!; [done.. |]. intros e. rewrite Hcl.
  assert (Hclear : remove [highlighted_text; bg_yellow_300]
                     (classList (removeHighlights (classes c)) e) =
                   remove [highlighted_text; bg_yellow_300] (classList (classes c) e)).
  { rewrite classList_removeHighlights.
    destruct (contains _ highlighted_text); [apply remove_remove | done]. }
  destruct (isHighlight (classes c') e); [by rewrite remove_add_highlight |]; done.
Qed.

Lemma firstOccurrences_snoc (l : list Element) (e : Element) :
  firstOccurrences (l ++ [e]) =
  if bool_decide (e ∈ firstOccurrences l)
  then firstOccurrences l
  else (firstOccurrences l ++ [e])%list.
Proof. unfold firstOccurrences. by rewrite fold_left_app. Qed.

(** The scan calls [classList.add] on the parents of the hit nodes, in
    scan order, on each at its first hit. *)
Lemma scan_added (searchText : string) (d0 : gmap Element (list string))
    (l seen : list TextNode) (st : Scan) :
  (∀ e, isHighlight d0 e = false) →
  ScanInv searchText d0 seen st →
  added st = firstOccurrences (parentNode <$> filter (λ n, hit searchText n = true) seen) →
  added (fold_left (visit searchText) l st) =
    firstOccurrences (parentNode <$> filter (λ n, hit searchText n = true) (seen ++ l)%list).
Proof.
  intros Hclear. revert seen st. induction l as [|n l IH]; intros seen st I Hadded.
  - by rewrite app_nil_r.
  - replace (seen ++ n :: l)%list with ((seen ++ [n]) ++ l)%list by by rewrite <- app_assoc.
    cbn [fold_left]. apply IH; [by apply ScanInv_visit |].
    rewrite filter_app. unfold visit.
    destruct (hit searchText n) eqn:Hn.
    + rewrite (filter_cons_True _ n []) by done. rewrite filter_nil, fmap_app.
      cbn [fmap list_fmap]. rewrite firstOccurrences_snoc, <- Hadded.
      pose proof (ScanInv_isHighlight _ _ Hclear seen st (parentNode n) I) as Hhl.
      unfold isHighlight in Hhl. rewrite Hhl.
      pose proof (inv_added _ _ _ _ I (parentNode n)) as Hin.
      destruct (existsb _ seen); cbn [negb added].
      * rewrite bool_decide_eq_true_2; [done | by apply Hin].
      * rewrite bool_decide_eq_false_2; [done |]. intros H%Hin. done.
    + rewrite (filter_cons_False _ n []) by (by rewrite Hn). by rewrite filter_nil, app_nil_r.
Qed.

(** X2.  [classList.add] is called on the parent elements of the nodes
    containing [S], in scan order, on each where it is first met; the
    [scrollIntoView] call, if any, is on the first of them; and [found] is
    true exactly when there is one. *)
Theorem highlightText_marks_in_scan_order (c : Container) (S : string) :
  S ≠ "" →
  marks (highlightText (Some c) (Some S)) =
    firstOccurrences
      (parentNode <$> filter (λ n, containsIgnoringCase (nodeValue n) S)
                             (concat (textLayers c))) ∧
  scrolls (highlightText (Some c) (Some S)) =
    match head (marks (highlightText (Some c) (Some S))) with
    | Some e => [{| target := e; behavior := "smooth"; block := "center" |}]
    | None => []
    end ∧
  (found (result (highlightText (Some c) (Some S))) = true ↔
   marks (highlightText (Some c) (Some S)) ≠ []).
Proof.
  intros HS. destruct (highlightText_outcome c S HS) as (st & I & Ho).
  assert (Hadd : marks (highlightText (Some c) (Some S)) =
                 firstOccurrences
                   (parentNode <$> filter (λ n, hit (JS.toLowerCase S) n = true)
                                          (concat (textLayers c)))).
  { unfold highlightText. destruct S; [done |]. cbn [JS.truthy negb marks].
    rewrite scanLayers_concat.
    apply (scan_added _ (removeHighlights (classes c)) _ []);
      [apply removeHighlights_clear | apply ScanInv_init | done]. }
  split_and!.
  - rewrite Hadd. do 2 f_equal. apply list_filter_iff. intros n. by apply hit_spec.
  - rewrite Ho. cbn [scrolls marks]. by rewrite (inv_head _ _ _ _ I).
  - rewrite Ho. cbn [result found marks]. rewrite (inv_found _ _ _ _ I). split.
    + intros (n & Hn & Hh)%existsb_elem_of Hnil.
      assert (Hin : parentNode n ∈ added st).
      { apply (inv_added _ _ _ _ I). apply existsb_elem_of. exists n. split; [done |].
        unfold hitAt. by rewrite Hh, bool_decide_eq_true_2. }
      rewrite Hnil in Hin. by apply elem_of_nil in Hin.
    + intros Hne. destruct (added st) as [|e l] eqn:Ha; [done |].
      assert (Hin : e ∈ added st) by (rewrite Ha; left).
      apply (inv_added _ _ _ _ I) in Hin. by apply hitAt_hit in Hin.
Qed.

(** What a call hands back, read off the text layers and the string alone. *)
Lemma highlightText_outputs (c : Container) (S : string) :
  S ≠ "" →
  marks (highlightText (Some c) (Some S)) =
    firstOccurrences
      (parentNode <$> filter (λ n, hit (JS.toLowerCase S) n = true) (concat (textLayers c))) ∧
  scrolls (highlightText (Some c) (Some S)) =
    match List.find (hit (JS.toLowerCase S)) (concat (textLayers c)) with
    | Some n => [smoothToCenter (parentNode n)]
    | None => []
    end ∧
  result (highlightText (Some c) (Some S)) =
    {| found := existsb (hit (JS.toLowerCase S)) (concat (textLayers c)) |}.
Proof.
  intros HS. destruct (highlightText_outcome c S HS) as (st & I & Ho). split_and!.
  - unfold highlightText. destruct S; [done |]. cbn [JS.truthy negb marks].
    rewrite scanLayers_concat.
    apply (scan_added _ (removeHighlights (classes c)) _ []);
      [apply removeHighlights_clear | apply ScanInv_init | done].
  - rewrite Ho. cbn [scrolls]. rewrite (inv_first _ _ _ _ I). by destruct (List.find _ _).
  - rewrite Ho. cbn [result]. by rewrite (inv_found _ _ _ _ I).
Qed.

(** X3.  What a search reports depends on the text layers and the string
    only, not on the classes the elements carry when it starts: on two
    containers with the same text layers it makes the same
    [classList.add] calls and the same scroll call, returns the same
    value and leaves the same elements highlighted. *)
Theorem highlightText_ignores_prior_classes (c1 c2 : Container) (S : string) :
  S ≠ "" →
  textLayers c1 = textLayers c2 →
  marks (highlightText (Some c1) (Some S)) = marks (highlightText (Some c2) (Some S)) ∧
  scrolls (highlightText (Some c1) (Some S)) = scrolls (highlightText (Some c2) (Some S)) ∧
  result (highlightText (Some c1) (Some S)) = result (highlightText (Some c2) (Some S)) ∧
  ∃ c1' c2',
    container (highlightText (Some c1) (Some S)) = Some c1' ∧
    container (highlightText (Some c2) (Some S)) = Some c2' ∧
    ∀ e, isHighlight (classes c1') e = isHighlight (classes c2') e.
Proof.
  intros HS Hl.
  destruct (highlightText_outputs c1 S HS) as (-> & -> & ->).
  destruct (highlightText_outputs c2 S HS) as (-> & -> & ->).
  rewrite Hl. split_and!; [done.. |].
  destruct (highlightText_highlighted c1 S HS) as (c1' & H1 & _ & Hiff1).
  destruct (highlightText_highlighted c2 S HS) as (c2' & H2 & _ & Hiff2).
  exists c1', c2'. split_and!; [done.. |]. intros e.
  apply eq_true_iff_eq. rewrite Hiff1, Hiff2. by apply holdsMatch_layers.
Qed.

(** The classes of an element when a call returns, token by token. *)
Lemma highlightText_token (c : Container) (S : string) :
  S ≠ "" →
  ∃ c', container (highlightText (Some c) (Some S)) = Some c' ∧
    textLayers c' = textLayers c ∧
    (∀ e, isHighlight (classes c') e = true ↔ holdsMatch c S e) ∧
    ∀ e t, t ∈ classList (classes c') e ↔
      (isHighlight (classes c') e = true ∧ t ∈ [highlighted_text; bg_yellow_300]) ∨
      (t ∈ classList (classes c) e ∧
       (highlighted_text ∈ classList (classes c) e → t ∉ [highlighted_text; bg_yellow_300])).
Proof.
  intros HS. destruct (highlightText_classList c S HS) as (c' & Hc' & Hl & Hcl).
  destruct (highlightText_highlighted c S HS) as (c'' & Hc'' & _ & Hiff).
  assert (c'' = c') as -> by congruence.
  exists c'. split_and!; [done.. |]. intros e t. rewrite Hcl.
  assert (Hclear : t ∈ classList (removeHighlights (classes c)) e ↔
                   t ∈ classList (classes c) e ∧
                   (highlighted_text ∈ classList (classes c) e →
                    t ∉ [highlighted_text; bg_yellow_300])).
  { rewrite classList_removeHighlights.
    destruct (contains _ highlighted_text) eqn:E.
    - apply contains_true in E. rewrite elem_of_remove. tauto.
    - apply contains_false in E. tauto. }
  destruct (isHighlight (classes c') e).
  - rewrite elem_of_add, Hclear. tauto.
  - rewrite Hclear. split; [tauto | intros [[? _] | ?]; [done | tauto]].
Qed.

(** X4.  Searching again for the same string changes nothing that shows:
    the second call makes the same [classList.add] calls and the same
    scroll call, returns the same value, and leaves every element with
    the classes it had after the first. *)
Theorem highlightText_again_changes_nothing (c : Container) (S : string) :
  S ≠ "" →
  ∃ c1 c2,
    container (highlightText (Some c) (Some S)) = Some c1 ∧
    container (highlightText (Some c1) (Some S)) = Some c2 ∧
    marks (highlightText (Some c1) (Some S)) = marks (highlightText (Some c) (Some S)) ∧
    scrolls (highlightText (Some c1) (Some S)) = scrolls (highlightText (Some c) (Some S)) ∧
    result (highlightText (Some c1) (Some S)) = result (highlightText (Some c) (Some S)) ∧
    ∀ e t, t ∈ classList (classes c2) e ↔ t ∈ classList (classes c1) e.
Proof.
  intros HS.
  destruct (highlightText_token c S HS) as (c1 & Hc1 & Hl1 & Hm1 & Ht1).
  destruct (highlightText_token c1 S HS) as (c2 & Hc2 & Hl2 & Hm2 & Ht2).
  exists c1, c2. split_and!; [done.. | | | |].
  - destruct (highlightText_outputs c1 S HS) as (-> & _).
    destruct (highlightText_outputs c S HS) as (-> & _). by rewrite Hl1.
  - destruct (highlightText_outputs c1 S HS) as (_ & -> & _).
    destruct (highlightText_outputs c S HS) as (_ & -> & _). by rewrite Hl1.
  - destruct (highlightText_outputs c1 S HS) as (_ & _ & ->).
    destruct (highlightText_outputs c S HS) as (_ & _ & ->). by rewrite Hl1.
  - intros e t.
    assert (Hsame : isHighlight (classes c2) e = isHighlight (classes c1) e).
    { apply eq_true_iff_eq. rewrite Hm1, Hm2. by apply holdsMatch_layers. }
    rewrite Ht2, Hsame.
    assert (Hhl : highlighted_text ∈ classList (classes c1) e ↔
                  isHighlight (classes c1) e = true).
    { unfold isHighlight. by rewrite contains_true. }
    rewrite Hhl. destruct (isHighlight (classes c1) e) eqn:Hmark.
    + split; [| destruct (decide (t ∈ [highlighted_text; bg_yellow_300])); tauto].
      intros [[_ Ht] | [? _]]; [| done]. apply Ht1. left. by rewrite Hmark.
    + split; [by intros [[? _] | [? _]] |]. intros Ht. right. split; [done |]. intros ?. done.
Qed.

Lemma hit_sameUpToCase (searchText : string) (n1 n2 : TextNode) :
  sameUpToCase n1 n2 → hit searchText n1 = hit searchText n2.
Proof.
  intros [_ Hv]. unfold hit. rewrite Hv. f_equal.
  by rewrite <- (toLowerCase_truthy (nodeValue n1)), Hv, toLowerCase_truthy.
Qed.

Lemma Forall2_concat {A B} (R : A → B → Prop) (ls1 : list (list A)) (ls2 : list (list B)) :
  Forall2 (Forall2 R) ls1 ls2 → Forall2 R (concat ls1) (concat ls2).
Proof. induction 1; simpl; [constructor | by apply Forall2_app]. Qed.

Lemma scan_sameUpToCase (searchText : string) (l1 l2 : list TextNode) :
  Forall2 sameUpToCase l1 l2 →
  parentNode <$> filter (λ n, hit searchText n = true) l1 =
    parentNode <$> filter (λ n, hit searchText n = true) l2 ∧
  parentNode <$> List.find (hit searchText) l1 =
    parentNode <$> List.find (hit searchText) l2 ∧
  existsb (hit searchText) l1 = existsb (hit searchText) l2.
Proof.
  induction 1 as [|n1 n2 l1 l2 Hn _ (IH1 & IH2 & IH3)]; [done |].
  pose proof (hit_sameUpToCase searchText n1 n2 Hn) as Hh. destruct Hn as [Hp _].
  cbn [List.find existsb]. rewrite !filter_cons, <- Hh.
  destruct (hit searchText n1); cbn.
  - rewrite decide_True by done. rewrite decide_True by done.
    rewrite !fmap_cons, IH1, Hp. done.
  - rewrite decide_False by done. rewrite decide_False by done. done.
Qed.

(** X5.  Letter case matters on neither side of the search: two strings
    that differ in case only, run over text layers whose nodes differ in
    case only, make the same [classList.add] calls and the same scroll
    call and return the same value. *)
Theorem highlightText_ignores_letter_case (c1 c2 : Container) (S1 S2 : string) :
  S1 ≠ "" →
  JS.toLowerCase S1 = JS.toLowerCase S2 →
  Forall2 (Forall2 sameUpToCase) (textLayers c1) (textLayers c2) →
  marks (highlightText (Some c1) (Some S1)) = marks (highlightText (Some c2) (Some S2)) ∧
  scrolls (highlightText (Some c1) (Some S1)) = scrolls (highlightText (Some c2) (Some S2)) ∧
  result (highlightText (Some c1) (Some S1)) = result (highlightText (Some c2) (Some S2)).
Proof.
  intros HS1 Heq Hl.
  assert (HS2 : S2 ≠ "").
  { intros ->. apply HS1. apply toLowerCase_empty. rewrite Heq. by apply toLowerCase_empty. }
  destruct (highlightText_outputs c1 S1 HS1) as (-> & -> & ->).
  destruct (highlightText_outputs c2 S2 HS2) as (-> & -> & ->).
  rewrite <- Heq.
  destruct (scan_sameUpToCase (JS.toLowerCase S1) _ _ (Forall2_concat _ _ _ Hl))
    as (-> & Hfind & ->).
  split_and!; [done | | done].
  destruct (List.find _ (concat (textLayers c1))), (List.find _ (concat (textLayers c2)));
    simplify_eq/=; congruence.
Qed.

End MoreLocate.

(** Searches on the sample. *)
Section MoreLocateExamples.
Import DOM PDFViewer.
#[local] Existing Instance asciiNatives.

Lemma highlightText_keeps_other_classes_witness :
  "gain" ≠ "" ∧
  ∃ c', container
          (highlightText
             (Some {| classes := {[ 3 := ["textLayer"; "bg-yellow-300"; "endOfContent"] ]};
                      textLayers := textLayers sampleContainer |})
             (Some "gain")) = Some c' ∧
    classList (classes c') 3 = ["textLayer"; "bg-yellow-300"; "endOfContent"; "highlighted-text"] ∧
    remove [highlighted_text; bg_yellow_300] (classList (classes c') 3) =
      ["textLayer"; "endOfContent"].
Proof.
  split; [done |].
  destruct (highlightText_keeps_other_classes
              {| classes := {[ 3 := ["textLayer"; "bg-yellow-300"; "endOfContent"] ]};
                 textLayers := textLayers sampleContainer |} "gain")
    as (c' & Hc' & _ & Hkeep); [done |].
  exists c'. split_and!; [done | | by rewrite Hkeep].
  vm_compute in Hc'. injection Hc' as <-. by vm_compute.
Defined.

Lemma highlightText_marks_in_scan_order_witness :
  "ebitda" ≠ "" ∧
  marks (highlightText
           (Some {| classes := ∅;
                    textLayers := [ [ {| nodeValue := "EBITDA"; parentNode := 7 |};
                                      {| nodeValue := "margin"; parentNode := 8 |};
                                      {| nodeValue := "Ebitda"; parentNode := 2 |};
                                      {| nodeValue := " (adj. ebitda)"; parentNode := 7 |} ];
                                    [ {| nodeValue := "ebitda"; parentNode := 9 |} ] ] |})
           (Some "ebitda")) = [7; 2; 9].
Proof.
  split; [done |].
  rewrite (proj1 (highlightText_marks_in_scan_order _ "ebitda" ltac:(done))).
  by vm_compute.
Defined.

Lemma highlightText_ignores_prior_classes_witness :
  "ebitda" ≠ "" ∧
  textLayers sampleContainer =
    textLayers {| classes := {[ 2 := ["highlighted-text"] ]};
                  textLayers := textLayers sampleContainer |} ∧
  marks (highlightText
           (Some {| classes := {[ 2 := ["highlighted-text"] ]};
                    textLayers := textLayers sampleContainer |})
           (Some "ebitda")) = [1; 4; 5].
Proof.
  split; [done |]. split; [done |].
  rewrite <- (proj1 (highlightText_ignores_prior_classes sampleContainer
                       {| classes := {[ 2 := ["highlighted-text"] ]};
                          textLayers := textLayers sampleContainer |}
                       "ebitda" ltac:(done) eq_refl)).
  by vm_compute.
Defined.

Lemma highlightText_again_changes_nothing_witness :
  "ebitda" ≠ "" ∧
  ∃ c1 c2,
    container (highlightText (Some sampleContainer) (Some "ebitda")) = Some c1 ∧
    container (highlightText (Some c1) (Some "ebitda")) = Some c2 ∧
    marks (highlightText (Some c1) (Some "ebitda")) = [1; 4; 5] ∧
    classList (classes c2) 4 = ["highlighted-text"; "bg-yellow-300"].
Proof.
  split; [done |].
  destruct (highlightText_again_changes_nothing sampleContainer "ebitda")
    as (c1 & c2 & Hc1 & Hc2 & Hm & _); [done |].
  exists c1, c2. split_and!; [done.. | |].
  - rewrite Hm. by vm_compute.
  - vm_compute in Hc1. injection Hc1 as <-.
    vm_compute in Hc2. injection Hc2 as <-. by vm_compute.
Defined.

Lemma highlightText_ignores_letter_case_witness :
  "EBITDA" ≠ "" ∧
  JS.toLowerCase "EBITDA" = JS.toLowerCase "ebitda" ∧
  marks (highlightText
           (Some {| classes := ∅;
                    textLayers := [ [ {| nodeValue := "Adjusted Ebitda"; parentNode := 1 |} ] ] |})
           (Some "EBITDA")) =
  marks (highlightText
           (Some {| classes := ∅;
                    textLayers := [ [ {| nodeValue := "ADJUSTED EBITDA"; parentNode := 1 |} ] ] |})
           (Some "ebitda")).
Proof.
  split; [done |]. split; [done |].
  apply (highlightText_ignores_letter_case
           {| classes := ∅;
              textLayers := [ [ {| nodeValue := "Adjusted Ebitda"; parentNode := 1 |} ] ] |}
           {| classes := ∅;
              textLayers := [ [ {| nodeValue := "ADJUSTED EBITDA"; parentNode := 1 |} ] ] |}
           "EBITDA" "ebitda"); [done | done |].
  repeat constructor.
Defined.

End MoreLocateExamples.

(** * More about citation clicks *)

Section MoreClicks.
Import DOM PDFViewer.
Context {natives : JS.Natives}.

(** X6.  A click that finds nothing always raises the notice, and what
    it does to the highlights depends on the citation's text.  With an
    empty text the click does nothing but show the notice: highlights
    and scroll position stay (in both versions of the handler, and the
    second keeps its current page).  With a non-empty text that no text
    node contains, the notice is shown, nothing is scrolled, and no
    element of the container is highlighted any more. *)
Theorem handleCitationClick_not_found
    (citation : Citation.t) (b : App.Browser) (viewer : App.Viewer) (current : Z) :
  App.pdfViewerRef b = Some viewer →
  (Citation.text citation = "" →
     App.handleCitationClick citation b = App.alert (App.notFoundMessage citation) b ∧
     App2.handleCitationClick citation {| App2.browser := b; App2.currentPage := current |} =
       {| App2.browser := App.alert (App.notFoundMessage citation) b;
          App2.currentPage := current |}) ∧
  (∀ c, Citation.text citation ≠ "" →
     App.containerRef viewer = Some c →
     (∀ layer node, layer ∈ textLayers c → node ∈ layer →
        ¬ containsIgnoringCase (nodeValue node) (Citation.text citation)) →
     App.alerts (App.handleCitationClick citation b) =
       (App.alerts b ++ [App.notFoundMessage citation])%list ∧
     App.scrollCalls (App.handleCitationClick citation b) = App.scrollCalls b ∧
     ∃ c', App.pdfViewerRef (App.handleCitationClick citation b) =
             Some {| App.containerRef := Some c' |} ∧
           textLayers c' = textLayers c ∧
           ∀ e, isHighlight (classes c') e = false).
Proof.
  intros Hv. split.
  - intros Ht. unfold App2.handleCitationClick, App.handleCitationClick, App.callHighlightText.
    cbn [App2.browser App2.currentPage]. rewrite Hv, Ht.
    destruct viewer as [cr]. cbn [App.containerRef].
    replace (highlightText cr (Some "")) with (earlyReturn cr) by by destruct cr.
    cbn [earlyReturn container scrolls result found negb App.alert
         App.pdfViewerRef App.scrollCalls App.alerts].
    rewrite app_nil_r, <- Hv. by destruct b.
  - intros c Ht Hc Hnone.
    unfold App.handleCitationClick, App.callHighlightText. rewrite Hv, Hc.
    destruct (highlightText_outputs c _ Ht) as (_ & Hscroll & Hres).
    destruct (highlightText_highlighted c _ Ht) as (c' & Hc' & Hl & Hiff).
    assert (Hno : existsb (hit (JS.toLowerCase (Citation.text citation)))
                    (concat (textLayers c)) = false).
    { apply not_true_is_false. rewrite (existsb_hit _ _ Ht).
      intros (n & (layer & Hlayer & Hn)%elem_of_concat & Hm). by apply (Hnone layer n). }
    rewrite Hres, Hscroll, Hc'. cbn [found]. rewrite Hno. cbn [negb App.alert
      App.pdfViewerRef App.scrollCalls App.alerts].
    assert (Hfind : List.find (hit (JS.toLowerCase (Citation.text citation)))
                      (concat (textLayers c)) = None).
    { destruct (List.find _ _) eqn:Hf; [| done].
      assert (is_Some (List.find (hit (JS.toLowerCase (Citation.text citation)))
                         (concat (textLayers c)))) as Hs by (by rewrite Hf).
      apply find_is_Some in Hs. congruence. }
    rewrite Hfind, app_nil_r. split_and!; [done.. |].
    exists c'. split_and!; [done.. |]. intros e. apply not_true_is_false. rewrite Hiff.
    intros (layer & node & Hlayer & Hn & _ & Hm). by apply (Hnone layer node).
Qed.

End MoreClicks.

(** Clicks that find nothing, on the sample. *)
Section MoreClicksExamples.
Import DOM PDFViewer.
#[local] Existing Instance asciiNatives.

Lemma handleCitationClick_not_found_witness :
  let empty := {| Citation.id := 1; Citation.text := ""; Citation.page := 3 |} in
  let split := {| Citation.id := 2; Citation.text := "EBITDA increased"; Citation.page := 5 |} in
  App.pdfViewerRef sampleBrowser = Some {| App.containerRef := Some sampleContainer |} ∧
  App.handleCitationClick empty sampleBrowser =
    App.alert (App.notFoundMessage empty) sampleBrowser ∧
  Citation.text split ≠ "" ∧
  App.alerts (App.handleCitationClick split sampleBrowser) = [App.notFoundMessage split] ∧
  App.scrollCalls (App.handleCitationClick split sampleBrowser) = [] ∧
  ∃ c', App.pdfViewerRef (App.handleCitationClick split sampleBrowser) =
          Some {| App.containerRef := Some c' |} ∧
        isHighlight (classes sampleContainer) 4 = true ∧
        isHighlight (classes c') 4 = false.
Proof.
  cbv zeta. split; [done |]. split.
  { by apply (handleCitationClick_not_found
                {| Citation.id := 1; Citation.text := ""; Citation.page := 3 |}
                sampleBrowser {| App.containerRef := Some sampleContainer |} 1 eq_refl). }
  split; [done |].
  destruct (proj2 (handleCitationClick_not_found
                     {| Citation.id := 2; Citation.text := "EBITDA increased"; Citation.page := 5 |}
                     sampleBrowser {| App.containerRef := Some sampleContainer |} 1 eq_refl)
              sampleContainer ltac:(done) eq_refl)
    as (Halert & Hscroll & c' & Hc' & _ & Hclear).
  { intros layer node Hl Hn Hc%containsIgnoringCase_includes.
    unfold sampleContainer in Hl. cbn [textLayers] in Hl.
    repeat (apply elem_of_cons in Hl as [-> | Hl];
            [repeat (apply elem_of_cons in Hn as [-> | Hn]; [by vm_compute in Hc |]);
             by apply elem_of_nil in Hn |]).
    by apply elem_of_nil in Hl. }
  split; [by rewrite Halert |]. split; [by rewrite Hscroll |].
  exists c'. split_and!; [done | by vm_compute | apply Hclear].
Defined.

End MoreClicksExamples.

(** * More about citation markers *)

Section MoreMarkers.

#[local] Arguments Pattern.marker : simpl never.

Lemma matchAt_append (x s ds rest : string) :
  Pattern.matchAt x = Some (ds, rest) →
  Pattern.matchAt (x ++ s) = Some (ds, rest ++ s).
Proof.
  intros (-> & Hds & Hne)%matchAt_Some. rewrite append_assoc. by apply matchAt_marker.
Qed.

Lemma firstMatch_Some (part ds : string) :
  Pattern.firstMatch part = Some ds →
  ∃ pre x rest, part = pre ++ x ∧ Pattern.matchAt x = Some (ds, rest).
Proof.
  induction part as [|c part IH].
  - cbn. done.
  - cbn [Pattern.firstMatch].
    destruct (Pattern.matchAt (String c part)) as [[ds' rest]|] eqn:Hm.
    + intros [= <-]. by exists "", (String c part), rest.
    + intros (pre & x & rest & -> & Hx)%IH. by exists (String c pre), x, rest.
Qed.

Lemma firstMatch_marker (ds : string) :
  allDigits ds → ds ≠ "" → Pattern.firstMatch (Pattern.marker ds) = Some ds.
Proof.
  intros Hds Hne. pose proof (matchAt_marker ds "" Hds Hne) as Hm.
  rewrite append_nil_r in Hm.
  destruct (Pattern.marker ds); cbn [Pattern.firstMatch]; by rewrite Hm.
Qed.

Lemma clean_firstMatch (piece s : string) :
  clean piece s → Pattern.firstMatch piece = None.
Proof.
  intros Hclean. destruct (Pattern.firstMatch piece) as [ds|] eqn:Hf; [| done].
  apply firstMatch_Some in Hf as (pre & x & rest & -> & Hx).
  assert (x ≠ "") as Hne by (intros ->; by cbn in Hx).
  apply (matchAt_append _ s) in Hx. by rewrite (Hclean pre x) in Hx.
Qed.

Lemma snoc_split (piece pre x : string) (c : ascii) :
  piece ++ String c "" = pre ++ x → x ≠ "" →
  ∃ x0, x = x0 ++ String c "" ∧ piece = pre ++ x0.
Proof.
  revert piece. induction pre as [|p pre IH]; intros piece H Hne.
  - rewrite append_nil_l in H. by exists piece.
  - destruct piece as [|q piece]; rewrite !append_cons in H.
    + rewrite append_nil_l in H. injection H as _ H. symmetry in H.
      by apply append_empty in H as [_ ?].
    + injection H as -> H. destruct (IH piece H Hne) as (x0 & -> & ->). by exists x0.
Qed.

Lemma clean_snoc (piece s : string) (c : ascii) :
  clean piece (String c s) →
  Pattern.matchAt (String c s) = None →
  clean (piece ++ String c "") s.
Proof.
  intros Hclean Hm pre x Hx Hne.
  apply snoc_split in Hx as (x0 & -> & ->); [| done].
  rewrite append_assoc, append_cons, append_nil_l.
  destruct x0 as [|d x0]; [by rewrite append_nil_l |].
  by apply (Hclean pre).
Qed.

(** Of the pieces of [split], only the markers hold a match of the
    pattern. *)
Lemma splitLoop_parts (turns : nat) (s piece part ds : string) :
  String.length s < turns →
  clean piece s →
  part ∈ Pattern.splitLoop turns s piece →
  Pattern.firstMatch part = Some ds →
  part = Pattern.marker ds ∧ allDigits ds ∧ ds ≠ "".
Proof.
  revert s piece. induction turns as [|turns IH]; intros s piece Hturns Hclean Hin Hf; [lia |].
  cbn [Pattern.splitLoop] in Hin.
  destruct (Pattern.matchAt s) as [[ds' rest]|] eqn:Hm.
  - pose proof (matchAt_shorter _ _ _ Hm) as Hshort.
    apply matchAt_Some in Hm as (-> & Hds' & Hne').
    apply elem_of_cons in Hin as [-> | Hin].
    { rewrite (clean_firstMatch _ _ Hclean) in Hf. done. }
    apply elem_of_cons in Hin as [-> | Hin].
    { rewrite firstMatch_marker in Hf by done. by injection Hf as <-. }
    apply (IH rest ""); [lia | | done..].
    intros pre x Hx Hne. symmetry in Hx. by apply append_empty in Hx as [_ ?].
  - destruct s as [|c s].
    + apply list_elem_of_singleton in Hin as ->.
      rewrite (clean_firstMatch _ _ Hclean) in Hf. done.
    + cbn [String.length] in Hturns.
      apply (IH s (piece ++ String c "")); [lia | by apply clean_snoc | done..].
Qed.

(** X7.  Nothing but a resolved marker is clickable.  Every span of the
    rendering stands where the content has a marker: its text is an
    opening bracket, one or more digits and a closing bracket, the
    content is what stands before it, the marker and what stands after
    it, its citation is one of the message's whose id is strictly equal
    to the number [parseInt] reads from the digits, and its key is its
    index. *)
Theorem formatMessageContent_spans_are_markers
    (content : string) (citations : option (list Citation.t))
    (before after : list App.Child) (key : nat) (citation : Citation.t) (part : string) :
  App.formatMessageContent content citations =
    App.children (before ++ App.span key citation part :: after) →
  ∃ cs ds,
    citations = Some cs ∧ citation ∈ cs ∧
    allDigits ds ∧ ds ≠ "" ∧ part = Pattern.marker ds ∧
    strictEquals (Citation.id citation) (JS.parseInt ds) ∧
    JS.parseInt ds = JS.numberOf (JS.digitsValue 0 ds) ∧
    key = length before ∧
    content = joined (childText <$> before) ++ Pattern.marker ds ++
              joined (childText <$> after).
Proof.
  intros Hfmt. destruct citations as [cs|]; [| done].
  assert (Hparts : imap (App.formatPart cs) (Pattern.split content) =
                   (before ++ App.span key citation part :: after)%list).
  { destruct cs; [done |]. by injection Hfmt. }
  assert (Htexts : Pattern.split content =
                   ((childText <$> before) ++ part :: (childText <$> after))%list).
  { rewrite <- (childText_imap (App.formatPart cs) (Pattern.split content))
      by apply formatPart_text.
    by rewrite Hparts, fmap_app, fmap_cons. }
  assert (Hi : imap (App.formatPart cs) (Pattern.split content) !! length before =
               Some (App.span key citation part)).
  { rewrite Hparts. by apply list_lookup_middle. }
  rewrite list_lookup_imap, Htexts in Hi.
  rewrite list_lookup_middle in Hi by by rewrite length_fmap.
  cbn in Hi. injection Hi as Hi. unfold App.formatPart in Hi.
  destruct (Pattern.firstMatch part) as [ds|] eqn:Hf; [| done].
  cbv zeta in Hi.
  destruct (find _ cs) as [c|] eqn:Hfind; [| done].
  injection Hi as <- <-.
  assert (Hin : part ∈ Pattern.split content).
  { rewrite Htexts, elem_of_app. right. left. }
  assert (Hclean : clean "" content).
  { intros pre x Hx Hne. symmetry in Hx. by apply append_empty in Hx as [_ ?]. }
  destruct (splitLoop_parts (S (String.length content)) content "" part ds
              ltac:(lia) Hclean Hin Hf) as (-> & Hds & Hne).
  apply find_some in Hfind as [Hc Hid]. apply list_elem_of_In in Hc.
  exists cs, ds. split_and!; [done.. | by apply parseInt_digits | done |].
  pose proof (splitLoop_joined (S (String.length content)) content "") as Hj.
  fold (Pattern.split content) in Hj. rewrite append_nil_l in Hj.
  rewrite <- Hj, Htexts, joined_app. done.
Qed.

Lemma formatMessageContent_spans_are_markers_witness :
  let c2 := {| Citation.id := 2; Citation.text := "EBITDA increased"; Citation.page := 5 |} in
  App.formatMessageContent "up [x] [2]." (Some [c2]) =
    App.children ([App.text "up [x] "] ++ App.span 1 c2 "[2]" :: [App.text "."]) ∧
  ∃ ds, "[2]" = Pattern.marker ds ∧ strictEquals (Citation.id c2) (JS.parseInt ds).
Proof.
  cbv zeta. split; [by vm_compute |].
  destruct (formatMessageContent_spans_are_markers "up [x] [2]."
              (Some [ {| Citation.id := 2; Citation.text := "EBITDA increased";
                         Citation.page := 5 |} ])
              [App.text "up [x] "] [App.text "."] 1
              {| Citation.id := 2; Citation.text := "EBITDA increased"; Citation.page := 5 |}
              "[2]" ltac:(by vm_compute))
    as (cs & ds & _ & _ & _ & _ & Hpart & Hid & _).
  by exists ds.
Defined.

End MoreMarkers.

(** * The transcript over time *)

Section MoreTranscript.
Context {natives : JS.Natives}.

Lemma userMessages_app (l1 l2 : list Message.t) :
  userMessages (l1 ++ l2) = userMessages l1 + userMessages l2.
Proof. unfold userMessages. by rewrite filter_app, length_app. Qed.

Lemma assistantMessages_app (l1 l2 : list Message.t) :
  assistantMessages (l1 ++ l2) = assistantMessages l1 + assistantMessages l2.
Proof. unfold assistantMessages. by rewrite filter_app, length_app. Qed.

Lemma userMessages_singleton (m : Message.t) :
  userMessages [m] = if Message.isUser m then 1 else 0.
Proof.
  unfold userMessages. destruct (Message.isUser m) eqn:E.
  - by rewrite filter_cons_True.
  - rewrite filter_cons_False; [done | by rewrite E].
Qed.

Lemma assistantMessages_singleton (m : Message.t) :
  assistantMessages [m] = if Message.isUser m then 0 else 1.
Proof.
  unfold assistantMessages. destruct (Message.isUser m) eqn:E.
  - rewrite filter_cons_False; [done | by rewrite E].
  - by rewrite filter_cons_True.
Qed.

(** One event keeps the old messages in front and the books balanced. *)
Lemma step_append_only (p : App.Panel) (e : Transcript.Event) :
  App.messages p `prefix_of` App.messages (Transcript.step p e) ∧
  assistantMessages (App.messages (Transcript.step p e)) +
    length (App.timeouts (Transcript.step p e)) + userMessages (App.messages p) =
  userMessages (App.messages (Transcript.step p e)) +
    assistantMessages (App.messages p) + length (App.timeouts p).
Proof.
  assert (Hsame : ∀ q, App.messages q = App.messages p →
                       App.timeouts q = App.timeouts p →
            App.messages p `prefix_of` App.messages q ∧
            assistantMessages (App.messages q) + length (App.timeouts q) +
              userMessages (App.messages p) =
            userMessages (App.messages q) + assistantMessages (App.messages p) +
              length (App.timeouts p)).
  { intros q -> ->. split; [done | lia]. }
  destruct e as [value | now | now]; cbn [Transcript.step].
  - by apply Hsame.
  - unfold App.handleSendMessage.
    destruct (JS.truthy (JS.trim (App.inputMessage p))); cbn [negb]; [| by apply Hsame].
    cbn [App.messages App.timeouts]. split; [by apply prefix_app_r |].
    rewrite userMessages_app, assistantMessages_app, length_app.
    rewrite userMessages_singleton, assistantMessages_singleton. cbn. lia.
  - unfold Transcript.fire. clear Hsame.
    destruct (App.timeouts p) as [|[cb d] rest] eqn:E;
      [cbv beta iota; rewrite E; split; [done | lia] |].
    destruct cb. cbn [App.run App.callback App.messages App.timeouts].
    split; [by apply prefix_app_r |].
    rewrite userMessages_app, assistantMessages_app.
    rewrite userMessages_singleton, assistantMessages_singleton. cbn. lia.
Qed.

(** X8.  Whatever the user types and submits and whenever the timers fire,
    the transcript only grows at its end, and every user message gets one
    reply, not more: the replies appended so far and the timers still
    pending together are as many as the user messages appended so far. *)
Theorem transcript_append_only (events : list Transcript.Event) (p : App.Panel) :
  App.messages p `prefix_of` App.messages (Transcript.after events p) ∧
  assistantMessages (App.messages (Transcript.after events p)) +
    length (App.timeouts (Transcript.after events p)) + userMessages (App.messages p) =
  userMessages (App.messages (Transcript.after events p)) +
    assistantMessages (App.messages p) + length (App.timeouts p).
Proof.
  unfold Transcript.after. revert p. induction events as [|e events IH]; intros p.
  - split; [done | cbn [fold_left]; lia].
  - cbn [fold_left]. destruct (step_append_only p e) as [Hpre Hcount].
    destruct (IH (Transcript.step p e)) as [Hpre' Hcount']. split; [by etrans | lia].
Qed.

(** X9.  A message sent while an earlier reply is still pending is not
    lost and not answered twice: from a panel without pending timers, two
    submissions of inputs of which trimming leaves something, followed by
    the two timers, give the old transcript, then the two user messages
    as typed, then two replies. *)
Theorem two_sends_before_the_replies
    (p : App.Panel) (first second : string) (t1 t2 t3 t4 : Z) :
  App.timeouts p = [] →
  ¬ blank first → ¬ blank second →
  ∃ u1 u2 r1 r2,
    App.messages
      (Transcript.after
         [ Transcript.typed first; Transcript.submitted t1;
           Transcript.typed second; Transcript.submitted t2;
           Transcript.fired t3; Transcript.fired t4 ] p) =
      (App.messages p ++ [u1; u2; r1; r2])%list ∧
    Message.content u1 = first ∧ Message.isUser u1 = true ∧
    Message.content u2 = second ∧ Message.isUser u2 = true ∧
    Message.isUser r1 = false ∧ Message.isUser r2 = false ∧
    App.timeouts
      (Transcript.after
         [ Transcript.typed first; Transcript.submitted t1;
           Transcript.typed second; Transcript.submitted t2;
           Transcript.fired t3; Transcript.fired t4 ] p) = [].
Proof.
  intros Hpending H1 H2.
  assert (Hsend : ∀ now q, ¬ blank (App.inputMessage q) →
            App.handleSendMessage now q =
              {| App.messages :=
                   App.messages q ++
                   [ {| Message.id := pretty now; Message.content := App.inputMessage q;
                        Message.isUser := true; Message.timestamp := now;
                        Message.citations := None |} ];
                 App.inputMessage := "";
                 App.timeouts :=
                   App.timeouts q ++
                   [ {| App.callback := App.appendSampleResponse; App.delay := 1000 |} ] |}).
  { intros now q Hq. unfold App.handleSendMessage.
    assert (JS.truthy (JS.trim (App.inputMessage q)) = true) as ->; [| done].
    by apply truthy_true. }
  unfold Transcript.after.
  cbn [fold_left Transcript.step]. unfold Transcript.handleChange, Transcript.fire.
  rewrite (Hsend t1) by done. cbn [App.messages App.inputMessage App.timeouts].
  rewrite (Hsend t2) by done. cbn [App.messages App.inputMessage App.timeouts].
  rewrite Hpending.
  cbn [app App.timeouts App.run App.callback App.messages App.inputMessage].
  eexists _, _, _, _. rewrite <- !app_assoc. cbn [app]. split; [reflexivity |].
  by split_and!.
Qed.

End MoreTranscript.

(** Two sends on ASCII input. *)
Section MoreTranscriptExamples.
#[local] Existing Instance asciiNatives.

Lemma two_sends_before_the_replies_witness :
  let p := {| App.messages := []; App.inputMessage := ""; App.timeouts := [] |} in
  App.timeouts p = [] ∧ ¬ blank "why?" ∧ ¬ blank "and then?" ∧
  ∃ u1 u2 r1 r2,
    App.messages
      (Transcript.after
         [ Transcript.typed "why?"; Transcript.submitted 10;
           Transcript.typed "and then?"; Transcript.submitted 20;
           Transcript.fired 1010; Transcript.fired 1020 ] p) = [u1; u2; r1; r2] ∧
    Message.content u1 = "why?" ∧ Message.content u2 = "and then?" ∧
    Message.isUser r1 = false ∧ Message.isUser r2 = false.
Proof.
  cbv zeta. split; [done |]. split; [compute_done |]. split; [compute_done |].
  destruct (two_sends_before_the_replies
              {| App.messages := []; App.inputMessage := ""; App.timeouts := [] |}
              "why?" "and then?" 10 20 1010 1020 eq_refl)
    as (u1 & u2 & r1 & r2 & Hm & H1 & _ & H2 & _ & H3 & H4 & _);
    [compute_done | compute_done |].
  by exists u1, u2, r1, r2.
Defined.

End MoreTranscriptExamples.

(** * What the viewer shows *)

Section MoreView.
Import PDFViewer PDFViewerView.

Lemma scales_percentStepsOk : forallb percentStepsOk scales = true.
Proof. by vm_compute. Qed.

(** X10.  The rounding errors of the scale never show.  On every scale
    the state can take, the toolbar shows a whole multiple of ten between
    50 and 200; zooming in raises the number shown by ten, or leaves it at
    200; zooming out lowers it by ten, or leaves it at 50. *)
Theorem zoomPercent_steps (s : float) :
  reachable s →
  ∃ p, zoomPercent s = Some p ∧
    (p mod 10 = 0)%Z ∧ (50 ≤ p ≤ 200)%Z ∧
    zoomPercent (zoomIn s) = Some (Z.min (p + 10) 200) ∧
    zoomPercent (zoomOut s) = Some (Z.max (p - 10) 50).
Proof.
  intros Hs%reachable_scales.
  apply (forallb_elem_of _ _ _ scales_percentStepsOk) in Hs.
  unfold percentStepsOk in Hs.
  destruct (zoomPercent s) as [p|]; [| done].
  destruct (zoomPercent (zoomIn s)) as [up|]; [| done].
  destruct (zoomPercent (zoomOut s)) as [down|]; [| done].
  rewrite !andb_true_iff, !Z.eqb_eq, !Z.leb_le in Hs.
  destruct Hs as ((((Hmod & Hlo) & Hhi) & ->) & ->). by exists p.
Qed.

Lemma zoomPercent_steps_witness :
  reachable (Nat.iter 6 zoomIn (initialScale (T := float))) ∧
  zoomPercent (Nat.iter 6 zoomIn (initialScale (T := float))) = Some 160%Z ∧
  zoomPercent (Nat.iter 7 zoomIn (initialScale (T := float))) = Some 170%Z.
Proof.
  assert (Hr : reachable (Nat.iter 6 zoomIn (initialScale (T := float)))).
  { cbn [Nat.iter]. repeat apply reach_zoomIn. apply reach_initial. }
  split; [done |].
  destruct (zoomPercent_steps _ Hr) as (p & Hp & _ & _ & Hup & _).
  assert (p = 160%Z) as -> by (vm_compute in Hp; congruence).
  split; [done |]. exact Hup.
Defined.

Lemma page_key_inj (i j : nat) :
  "page_" ++ pretty (i + 1) = "page_" ++ pretty (j + 1) → i = j.
Proof.
  intros H%(inj (String.app "page_")). apply (inj pretty) in H. lia.
Qed.

(** X11.  The viewer renders each page of the document once: pages 1 to
    [numPages] in order, all at the current scale and 800 wide with their
    text layer, under pairwise distinct keys.  Before the page count is
    known (0) it renders none. *)
Theorem pages_one_per_page (numPages : nat) (current : float) :
  pageNumber <$> pages numPages current = seq 1 numPages ∧
  NoDup (key <$> pages numPages current) ∧
  Forall (λ p, scale p = current ∧ width p = 800%Z ∧ renderTextLayer p = true)
         (pages numPages current) ∧
  pages 0 current = [].
Proof.
  unfold pages. split_and!; [| | | done].
  - rewrite <- list_fmap_compose.
    assert (H : ∀ a n, (λ i, i + 1) <$> seq a n = seq (a + 1) n).
    { intros a n. revert a. induction n as [|n IH]; intros a; [done |].
      cbn. f_equal. apply IH. }
    apply (H 0 numPages).
  - rewrite <- list_fmap_compose. apply NoDup_fmap_2_strong; [| apply NoDup_seq].
    intros i j _ _ H. by apply page_key_inj.
  - apply Forall_fmap, Forall_forall. by intros i _.
Qed.

End MoreView.

(** * The theme *)

Section MoreTheme.
Import Theme.

(** X12.  The theme survives a reload.  Once the effect has run for a
    value of [darkMode], the initialiser returns that value from what is
    stored, whatever the system preference and the document's classes
    then are.  The effect leaves the class [dark] on the document exactly
    when [darkMode] is on, and touches no other class and no other key of
    the storage. *)
Theorem theme_survives_reload
    (darkMode : bool) (w : Window) (classesThen : list string) (systemThen : bool) :
  initialDarkMode
    (Some {| localStorage := localStorage (applyDarkMode darkMode w);
             documentElement := classesThen;
             prefersDark := systemThen |}) = darkMode ∧
  ("dark" ∈ documentElement (applyDarkMode darkMode w) ↔ darkMode = true) ∧
  (∀ t, t ≠ "dark" →
     t ∈ documentElement (applyDarkMode darkMode w) ↔ t ∈ documentElement w) ∧
  (∀ k, k ≠ "theme" →
     localStorage (applyDarkMode darkMode w) !! k = localStorage w !! k).
Proof.
  unfold initialDarkMode, applyDarkMode.
  destruct darkMode; cbn [localStorage documentElement].
  - rewrite lookup_insert_eq. split_and!; [done | | |].
    + rewrite elem_of_add. split; [done | intros _; right; left].
    + intros t Ht. rewrite elem_of_add, list_elem_of_singleton. tauto.
    + intros k Hk. by rewrite lookup_insert_ne.
  - rewrite lookup_insert_eq. split_and!; [done | | |].
    + rewrite elem_of_remove. split; [| done]. intros [_ H]. exfalso. apply H. left.
    + intros t Ht. rewrite elem_of_remove, list_elem_of_singleton. tauto.
    + intros k Hk. by rewrite lookup_insert_ne.
Qed.

End MoreTheme.
